(** * Dungeons: the client-side game-state model of the dungeon crawler

    The repository holds two variants of the React client:

    - the local-authority client (module [Local] below), whose key handler
      validates a move against the grid, reveals the 3x3 neighbourhood and
      counts the move itself;
    - the remote-authority client ([frontend/src/App.js], module [Remote]
      below), whose handlers send the direction or the combat action to the
      server and install what the server answers.

    JavaScript numbers that hold grid coordinates and counters are integers
    in both clients and are modelled as [Z]; arrays are lists, read with
    [js_get] and written with [js_set]; an object that may be [null] is an
    [option].  The numbers are doubles.  Arithmetic on coordinates is taken
    to be exact: they index arrays, whose lengths stay below 2^32, far
    inside the range in which doubles add and subtract exactly.  The move
    counter indexes nothing and nothing bounds it; its increment is the
    rounded sum [js_add]. *)

From Stdlib Require Import ZArith Lia Bool Ascii String List.
From stdpp Require Import base option list strings gmap.
Import ListNotations.

Local Open Scope string_scope.
Local Open Scope Z_scope.

(** ** JavaScript numbers *)

(** The double nearest to an integer, ties to the even significand.  Up to
    2^53 in magnitude every integer is a double; beyond, the doubles are
    the multiples [q * 2^e] with [q] of 53 bits. *)
Definition round_double (z : Z) : Z :=
  let m := Z.abs z in
  if m <=? 2 ^ 53 then z
  else
    let u := 2 ^ (Z.log2 m - 52) in
    let q := m / u in
    let r := m mod u in
    let q' :=
      if 2 * r <? u then q
      else if u <? 2 * r then q + 1
      else if Z.even q then q else q + 1 in
    Z.sgn z * (q' * u).

(** [a + b] on doubles that hold integers.  (A sum beyond the largest
    double is Infinity; adding one to a double never gets there.) *)
Definition js_add (a b : Z) : Z := round_double (a + b).

(** ** JavaScript arrays *)

(** [arr[i]]: [undefined] (here [None]) for a negative or too large index. *)
Definition js_get {A : Type} (arr : list A) (i : Z) : option A :=
  if 0 <=? i then arr !! Z.to_nat i else None.

(** [arr[i] = v] on an array of booleans.  Writing past the end extends the
    array; the cells in between are holes, which read as [undefined] and are
    falsy wherever the clients read them, hence [false] here.  A negative
    index sets a property of the object and leaves the elements alone. *)
Definition js_set (arr : list bool) (i : Z) (v : bool) : list bool :=
  if i <? 0 then arr
  else
    let n := Z.to_nat i in
    if (n <? length arr)%nat then <[n := v]> arr
    else arr ++ replicate (n - length arr)%nat false ++ [v].

(** [String.prototype.toLowerCase] on the ASCII letters.  Key names are
    compared with ASCII labels only, and no character outside ASCII
    lower-cases to one of the letters of those labels, so the switch of the
    key handlers takes the same branch. *)
Definition lower_ascii (c : ascii) : ascii :=
  let n := nat_of_ascii c in
  if ((65 <=? n) && (n <=? 90))%nat then ascii_of_nat (n + 32) else c.

Fixpoint toLowerCase (s : string) : string :=
  match s with
  | EmptyString => EmptyString
  | String c s' => String (lower_ascii c) (toLowerCase s')
  end.

(** ** Data model *)

(** Cell kinds of [dungeon.grid], as the server encodes them. *)
Definition Floor : Z := 0.
Definition Wall : Z := 1.
Definition Door : Z := 2.
Definition Chest : Z := 3.

Record Treasure := mkTreasure
  { t_id : string; t_x : Z; t_y : Z; t_type : string }.

Record Enemy := mkEnemy
  { e_id : string; e_x : Z; e_y : Z; e_type : string; e_alive : bool }.

Record Trap := mkTrap { tr_x : Z; tr_y : Z }.

Record DoorEntity := mkDoor
  { d_id : string; d_x : Z; d_y : Z; d_locked : bool }.

Record ChestEntity := mkChest
  { c_id : string; c_x : Z; c_y : Z; c_locked : bool }.

Record KeyEntity := mkKey
  { k_id : string; k_x : Z; k_y : Z; k_type : string }.

Record Dungeon := mkDungeon
  { dungeon_id : string;
    width : Z;
    height : Z;
    grid : list (list Z);
    theme : string;
    difficulty : string;
    treasures : list Treasure;
    enemies : list Enemy;
    traps : list Trap;
    doors : list DoorEntity;
    chests : list ChestEntity;
    keys : list KeyEntity }.

Record Item := mkItem { item_name : string; item_emoji : string }.

Abbreviation Tiles := (list (list bool)).

Record GameState := mkGameState
  { id : string;
    player_x : Z;
    player_y : Z;
    discovered_tiles : Tiles;
    hero_class : string;
    hero_gender : string;
    player_hp : Z;
    max_hp : Z;
    player_attack : Z;
    player_defense : Z;
    player_magic : Z;
    player_agility : Z;
    player_level : Z;
    moves : Z;
    inventory : list Item;
    collected_treasures : list string;
    opened_chests : list string;
    collected_keys : list string;
    in_combat : bool }.

(** [gameState.discovered_tiles[y][x]] read for its truthiness, where the
    row exists. *)
Definition row_lit (row : list bool) (x : Z) : bool :=
  match js_get row x with Some b => b | None => false end.

Definition lit (tiles : Tiles) (y x : Z) : bool :=
  match js_get tiles y with Some row => row_lit row x | None => false end.

(** [dungeon.grid[y][x]]: [None] when the row is missing (the read throws a
    TypeError), [Some None] when the row has no such cell ([undefined]). *)
Definition grid_cell (d : Dungeon) (y x : Z) : option (option Z) :=
  match js_get (grid d) y with
  | None => None
  | Some row => Some (js_get row x)
  end.

(** How a handler ends: normally, or by an uncaught TypeError.  Either way
    it leaves a state behind. *)
Inductive completion (S : Type) : Type :=
| Normal (s : S)
| TypeError (s : S).
Arguments Normal {S} s.
Arguments TypeError {S} s.

Definition final {S : Type} (c : completion S) : S :=
  match c with Normal s => s | TypeError s => s end.

(** [for (let i = ...; ...; i++) body], over the values [xs] of [i]; a throw
    in the body ends the loop. *)
Fixpoint for_each {S : Type} (xs : list Z) (body : Z -> S -> completion S)
    (s : S) : completion S :=
  match xs with
  | [] => Normal s
  | x :: xs' =>
      match body x s with
      | Normal s' => for_each xs' body s'
      | TypeError s' => TypeError s'
      end
  end.

(** ** The local-authority client *)

Module Local.

(** The switch on [key.toLowerCase()]: the candidate coordinates, or [None]
    for the [default: return]. *)
Definition candidate (gameState : GameState) (dungeon : Dungeon)
    (key : string) : option (Z * Z) :=
  let newX := player_x gameState in
  let newY := player_y gameState in
  let k := toLowerCase key in
  if (String.eqb k "w") || (String.eqb k "arrowup") then
    Some (newX, Z.max 0 (newY - 1))
  else if (String.eqb k "s") || (String.eqb k "arrowdown") then
    Some (newX, Z.min (height dungeon - 1) (newY + 1))
  else if (String.eqb k "a") || (String.eqb k "arrowleft") then
    Some (Z.max 0 (newX - 1), newY)
  else if (String.eqb k "d") || (String.eqb k "arrowright") then
    Some (Z.min (width dungeon - 1) (newX + 1), newY)
  else None.

(** [newDiscovered[checkY][checkX] = true].  [newDiscovered] is a copy of
    the outer array only: its rows are the rows of the current state, so
    the write lands in the state whether or not the handler later installs
    [newDiscovered]. *)
Definition mark (tiles : Tiles) (checkY checkX : Z) : completion Tiles :=
  match js_get tiles checkY with
  | None => TypeError tiles
  | Some row => Normal (<[Z.to_nat checkY := js_set row checkX true]> tiles)
  end.

Definition in_bounds (dungeon : Dungeon) (checkY checkX : Z) : bool :=
  (checkY >=? 0) && (checkY <? height dungeon) &&
  (checkX >=? 0) && (checkX <? width dungeon).

(** The two nested loops over [dy] and [dx]. *)
Definition reveal (dungeon : Dungeon) (newX newY : Z) (tiles : Tiles)
    : completion Tiles :=
  for_each [-1; 0; 1] (fun dy =>
    for_each [-1; 0; 1] (fun dx tiles' =>
      let checkY := newY + dy in
      let checkX := newX + dx in
      if in_bounds dungeon checkY checkX then mark tiles' checkY checkX
      else Normal tiles')) tiles.

Definition with_tiles (g : GameState) (tiles : Tiles) : GameState :=
  mkGameState (id g) (player_x g) (player_y g) tiles (hero_class g)
    (hero_gender g) (player_hp g) (max_hp g) (player_attack g)
    (player_defense g) (player_magic g) (player_agility g) (player_level g)
    (moves g) (inventory g) (collected_treasures g) (opened_chests g)
    (collected_keys g) (in_combat g).

(** [{...prev, player_x: newX, player_y: newY, discovered_tiles:
    newDiscovered, moves: prev.moves + 1}] *)
Definition moved (prev : GameState) (newX newY : Z) (newDiscovered : Tiles)
    : GameState :=
  mkGameState (id prev) newX newY newDiscovered (hero_class prev)
    (hero_gender prev) (player_hp prev) (max_hp prev) (player_attack prev)
    (player_defense prev) (player_magic prev) (player_agility prev)
    (player_level prev) (js_add (moves prev) 1) (inventory prev)
    (collected_treasures prev) (opened_chests prev) (collected_keys prev)
    (in_combat prev).

(** The keydown handler.  The result is the [gameState] of the component
    after the event. *)
Definition handleKeyPress (gameState : option GameState)
    (dungeon : option Dungeon) (key : string)
    : completion (option GameState) :=
  match gameState, dungeon with
  | Some gs, Some d =>
      match candidate gs d key with
      | None => Normal (Some gs)
      | Some (newX, newY) =>
          match grid_cell d newY newX with
          | None => TypeError (Some gs)
          | Some cell =>
              if bool_decide (cell = Some 0) then
                match reveal d newX newY (discovered_tiles gs) with
                | Normal newDiscovered =>
                    Normal (Some (moved gs newX newY newDiscovered))
                | TypeError tiles => TypeError (Some (with_tiles gs tiles))
                end
              else Normal (Some gs)
          end
      end
  | _, _ => Normal gameState
  end.

(** A session of key presses on one dungeon. *)
Fixpoint play (dungeon : option Dungeon) (presses : list string)
    (gameState : option GameState) : option GameState :=
  match presses with
  | [] => gameState
  | key :: rest =>
      play dungeon rest (final (handleKeyPress gameState dungeon key))
  end.

(** *** Rendering in the local client *)

Definition wizard : string := "üßô‚Äç‚ôÇÔ∏è".

Definition treasure_emoji (treasure : Treasure) : string :=
  if String.eqb (t_type treasure) "gold" then "üí∞"
  else if String.eqb (t_type treasure) "potion" then "üß™"
  else if String.eqb (t_type treasure) "weapon" then "‚öîÔ∏è"
  else "üõ°Ô∏è".

Definition enemy_emoji (enemy : Enemy) : string :=
  if String.eqb (e_type enemy) "goblin" then "üëπ"
  else if String.eqb (e_type enemy) "orc" then "üë∫"
  else if String.eqb (e_type enemy) "skeleton" then "üíÄ"
  else if String.eqb (e_type enemy) "spider" then "üï∑Ô∏è"
  else "üêÄ".

Definition trap_emoji : string := "‚ö†Ô∏è".

(** The three [find] calls at cell (x, y); this client has no collected
    lists to look into. *)
Definition find_treasure (d : Dungeon) (x y : Z) : option Treasure :=
  List.find (fun t => (t_x t =? x) && (t_y t =? y)) (treasures d).

Definition find_enemy (d : Dungeon) (x y : Z) : option Enemy :=
  List.find (fun e => (e_x e =? x) && (e_y e =? y) && e_alive e) (enemies d).

Definition find_trap (d : Dungeon) (x y : Z) : option Trap :=
  List.find (fun t => (tr_x t =? x) && (tr_y t =? y)) (traps d).

(** The assignments to [emoji] in the cell callback.  Each test of the
    chain after [isPlayer] is conjoined with [isDiscovered]. *)
Definition resolve (isPlayer isDiscovered : bool) (cell : Z)
    (treasure : option Treasure) (enemy : option Enemy) (trap : option Trap)
    : string :=
  let emoji := "" in
  let emoji :=
    if cell =? 0 then
      if isPlayer then wizard
      else if isDiscovered then
        match treasure, enemy, trap with
        | Some treasure', _, _ => treasure_emoji treasure'
        | None, Some enemy', _ => enemy_emoji enemy'
        | None, None, Some _ => trap_emoji
        | None, None, None => emoji
        end
      else emoji
    else emoji in
  if negb isDiscovered && negb isPlayer then "" else emoji.

(** The glyph of the cell at row [y], column [x]; [None] when reading
    [discovered_tiles[y][x]] throws for want of the row. *)
Definition renderCell (d : Dungeon) (gs : GameState) (y x : Z) (cell : Z)
    : option string :=
  let isPlayer := (player_x gs =? x) && (player_y gs =? y) in
  row ← js_get (discovered_tiles gs) y;
  Some (resolve isPlayer (row_lit row x) cell (find_treasure d x y)
          (find_enemy d x y) (find_trap d x y)).

Inductive Rendered : Type :=
| RenderNull
| RenderThrows
| RenderGrid (glyphs : list (list string)).

Definition renderDungeon (gameState : option GameState)
    (dungeon : option Dungeon) : Rendered :=
  match dungeon, gameState with
  | Some d, Some gs =>
      match
        mapM (fun '(y, row) =>
                mapM (fun '(x, cell) =>
                        renderCell d gs (Z.of_nat y) (Z.of_nat x) cell)
                  (imap pair row))
          (imap pair (grid d))
      with
      | Some glyphs => RenderGrid glyphs
      | None => RenderThrows
      end
  | _, _ => RenderNull
  end.

End Local.

(** ** What the statements are about *)

(** The cells the reveal loops write: the 3x3 block around the destination,
    cut to [dungeon.width] and [dungeon.height]. *)
Definition revealed (dungeon : Dungeon) (newX newY : Z) (y x : Z) : bool :=
  (newY - 1 <=? y) && (y <=? newY + 1) &&
  (newX - 1 <=? x) && (x <=? newX + 1) &&
  (0 <=? y) && (y <? height dungeon) && (0 <=? x) && (x <? width dungeon).

(** The body of the inner loop, at a fixed row. *)
Definition inner_body (dungeon : Dungeon) (newX : Z) (checkY : Z) (dx : Z)
    (tiles : Tiles) : completion Tiles :=
  if Local.in_bounds dungeon checkY (newX + dx)
  then Local.mark tiles checkY (newX + dx)
  else Normal tiles.

(** The columns the inner loop writes in row [checkY], and the cells the two
    loops write, for any lists of offsets. *)
Definition row_hits (dungeon : Dungeon) (newX : Z) (checkY : Z)
    (dxs : list Z) (x : Z) : bool :=
  existsb (fun dx => (x =? newX + dx) &&
                     Local.in_bounds dungeon checkY (newX + dx)) dxs.

Definition block_hits (dungeon : Dungeon) (newX newY : Z) (dys dxs : list Z)
    (y x : Z) : bool :=
  existsb (fun dy => (y =? newY + dy) &&
                     row_hits dungeon newX (newY + dy) dxs x) dys.

(** One discovery map holds at least what another holds. *)
Definition tiles_le (t t' : Tiles) : Prop :=
  forall y x, lit t y x = true -> lit t' y x = true.

(** The discovery map of a component state; no state, nothing discovered. *)
Definition discovered (gameState : option GameState) (y x : Z) : bool :=
  match gameState with
  | Some gs => lit (discovered_tiles gs) y x
  | None => false
  end.

(** ** Sample dungeons and sessions *)

(** A [w] x [h] dungeon of floor cells, a session of the local client
    standing at ([px], [py]), and discovery maps with nothing or everything
    discovered. *)
Definition open_dungeon (w h : nat) : Dungeon :=
  mkDungeon "d1" (Z.of_nat w) (Z.of_nat h) (replicate h (replicate w Floor))
    "cave" "medium" [] [] [] [] [] [].

Definition session_at (px py : Z) (tiles : Tiles) : GameState :=
  mkGameState "g1" px py tiles "wizard" "male" 100 100 10 5 0 0 1 0 [] [] []
    [] false.

(** A session that has counted [n] moves, at (0,0) of a 2x2 dungeon. *)
Definition long_session (n : Z) : GameState :=
  mkGameState "g1" 0 0 (replicate 2 (replicate 2 true)) "wizard" "male" 100
    100 10 5 0 0 1 n [] [] [] [] false.

Definition dark (w h : nat) : Tiles := replicate h (replicate w false).

Definition lit_all (w h : nat) : Tiles := replicate h (replicate w true).

(** A 3x1 corridor whose east end is a wall. *)
Definition walled_corridor : Dungeon :=
  mkDungeon "d2" 3 1 [[Floor; Floor; Wall]] "crypt" "easy" [] [] [] [] [] [].

(** ** The remote-authority client *)

Module Remote.

(** The answer of [POST /move-player]: [message], [in_combat] and
    [combat_enemy] are optional; a missing [in_combat] is falsy. *)
Module MoveResult.
Record t := mk
  { success : bool;
    message : option string;
    in_combat : bool;
    combat_enemy : option Enemy }.
End MoveResult.

(** The answer of [POST /combat], an object with its four fields. *)
Module CombatResult.
Record t := mk
  { combat_log : list string;
    combat_ended : bool;
    player_hp : Z;
    player_defeated : bool }.
End CombatResult.

Record Hero := mkHero
  { hero_name : string; hero_emoji : string; hero_hp : Z; hero_attack : Z;
    hero_defense : Z; hero_magic : Z; hero_agility : Z; dice_count : Z;
    dice_sides : Z }.

(** The requests the handlers send with axios, and what each is answered
    with.  The body of [GET /game] goes into [gameState] as it comes, so it
    is a game state or [null]. *)
Inductive Request : Type :=
| PostMovePlayer (game_id : string) (direction : string)
| GetGame (game_id : string)
| PostCombat (game_id : string) (action_type : string).

Definition Reply (r : Request) : Type :=
  match r with
  | PostMovePlayer _ _ => MoveResult.t
  | GetGame _ => option GameState
  | PostCombat _ _ => CombatResult.t
  end.

(** The [useState] cells of the component.  A line of the combat log is
    [None] where the handler appends an absent [result.message]. *)
Record Client := mkClient
  { gameState : option GameState;
    dungeon : option Dungeon;
    heroes : gmap string (gmap string Hero);
    combatLog : list (option string);
    showInventory : bool;
    currentView : string }.

Definition setGameState (f : option GameState -> option GameState)
    (c : Client) : Client :=
  mkClient (f (gameState c)) (dungeon c) (heroes c) (combatLog c)
    (showInventory c) (currentView c).

Definition setCombatLog (f : list (option string) -> list (option string))
    (c : Client) : Client :=
  mkClient (gameState c) (dungeon c) (heroes c) (f (combatLog c))
    (showInventory c) (currentView c).

Definition setShowInventory (b : bool) (c : Client) : Client :=
  mkClient (gameState c) (dungeon c) (heroes c) (combatLog c) b
    (currentView c).

(** An async handler: it returns, throws, updates a state cell, awaits an
    axios call (answered, or rejected: [None]) or writes to the console.
    [SetStateBy] is a setter called with an updater that reads what may be
    absent: the call only queues the updater, and the TypeError of the
    read, [None], is thrown when React runs the updater, not in the
    handler. *)
Inductive Async (A : Type) : Type :=
| Ret (a : A)
| Throw
| SetState (f : Client -> Client) (k : Async A)
| SetStateBy (updater : Client -> option Client) (k : Async A)
| Axios (r : Request) (k : option (Reply r) -> Async A)
| ConsoleError (msg : string) (k : Async A).
Arguments Ret {A} a.
Arguments Throw {A}.
Arguments SetState {A} f k.
Arguments SetStateBy {A} updater k.
Arguments Axios {A} r k.
Arguments ConsoleError {A} msg k.

Fixpoint bind {A B : Type} (m : Async A) (f : A -> Async B) : Async B :=
  match m with
  | Ret a => f a
  | Throw => Throw
  | SetState g k => SetState g (bind k f)
  | SetStateBy g k => SetStateBy g (bind k f)
  | Axios r k => Axios r (fun o => bind (k o) f)
  | ConsoleError msg k => ConsoleError msg (bind k f)
  end.

#[local] Instance Async_bind : MBind Async := fun A B f m => bind m f.
#[local] Instance Async_ret : MRet Async := fun A a => Ret a.

(** [try { body } catch (error) { handler }].  What a queued updater throws
    later is not thrown in the body, and the catch does not see it. *)
Fixpoint try_catch {A : Type} (body handler : Async A) : Async A :=
  match body with
  | Ret a => Ret a
  | Throw => handler
  | SetState g k => SetState g (try_catch k handler)
  | SetStateBy g k => SetStateBy g (try_catch k handler)
  | Axios r k => Axios r (fun o => try_catch (k o) handler)
  | ConsoleError msg k => ConsoleError msg (try_catch k handler)
  end.

(** [(await axios...(r)).data]; a rejected promise throws at the [await]. *)
Definition await (r : Request) : Async (Reply r) :=
  Axios r (fun o => match o with Some data => Ret data | None => Throw end).

Definition update (f : Client -> Client) : Async unit := SetState f (Ret tt).

Definition update_by (updater : Client -> option Client) : Async unit :=
  SetStateBy updater (Ret tt).

(** [setCombatLog(updater)] for an updater that may throw. *)
Definition setCombatLogBy
    (updater : list (option string) -> option (list (option string)))
    (c : Client) : option Client :=
  log ← updater (combatLog c);
  Some (mkClient (gameState c) (dungeon c) (heroes c) log (showInventory c)
          (currentView c)).

Definition console_error (msg : string) : Async unit :=
  ConsoleError msg (Ret tt).

Definition when (b : bool) (m : Async unit) : Async unit :=
  if b then m else Ret tt.

(** Truthiness of an optional string: absent and empty are falsy. *)
Definition truthy (s : option string) : bool :=
  match s with
  | Some s' => negb (String.eqb s' "")
  | None => false
  end.

(** The updater [prev => [...prev, `Combat started with
    ${result.combat_enemy.type}!`]]: reading [type] of an absent
    [combat_enemy] is a TypeError, raised when the updater runs. *)
Definition combat_started (result : MoveResult.t)
    (prev : list (option string)) : option (list (option string)) :=
  enemy ← MoveResult.combat_enemy result;
  Some (prev ++ [Some (String.append "Combat started with "
                         (String.append (e_type enemy) "!"))])%list.

(** [movePlayer], with the [gameState] of the render it closes over. *)
Definition movePlayer (gameState : option GameState) (direction : string)
    : Async unit :=
  match gameState with
  | None => Ret tt
  | Some gs =>
      if in_combat gs then Ret tt
      else
        try_catch
          (result ← await (PostMovePlayer (id gs) direction);
           if MoveResult.success result then
             updatedState ← await (GetGame (id gs));
             update (setGameState (fun _ => updatedState)) ;;
             when (truthy (MoveResult.message result))
               (update (setCombatLog
                  (fun prev => (prev ++ [MoveResult.message result])%list))) ;;
             when (MoveResult.in_combat result)
               (update_by (setCombatLogBy (combat_started result)))
           else
             update (setCombatLog
               (fun prev => (prev ++ [MoveResult.message result])%list)))
          (console_error "Error moving player:")
  end.

(** [{...prev, player_hp: hp}].  The handler that queues this update has
    found [gameState] to be an object, so [prev] is one when it runs. *)
Definition patch_player_hp (hp : Z) (prev : GameState) : GameState :=
  mkGameState (id prev) (player_x prev) (player_y prev)
    (discovered_tiles prev) (hero_class prev) (hero_gender prev) hp
    (max_hp prev) (player_attack prev) (player_defense prev)
    (player_magic prev) (player_agility prev) (player_level prev)
    (moves prev) (inventory prev) (collected_treasures prev)
    (opened_chests prev) (collected_keys prev) (in_combat prev).

Definition game_over : string := "Game Over! Return to menu to start again.".

Definition performCombatAction (gameState : option GameState)
    (actionType : string) : Async unit :=
  match gameState with
  | None => Ret tt
  | Some gs =>
      if negb (in_combat gs) then Ret tt
      else
        try_catch
          (result ← await (PostCombat (id gs) actionType);
           update (setCombatLog (fun prev =>
             (prev ++ map Some (CombatResult.combat_log result))%list)) ;;
           (if CombatResult.combat_ended result then
              updatedState ← await (GetGame (id gs));
              update (setGameState (fun _ => updatedState))
            else
              update (setGameState
                (fmap (patch_player_hp (CombatResult.player_hp result))))) ;;
           when (CombatResult.player_defeated result)
             (update (setCombatLog (fun prev => (prev ++ [Some game_over])%list))))
          (console_error "Error in combat:")
  end.

(** The keydown handler of the component rendered from [c]. *)
Definition handleKeyPress (c : Client) (key : string) : Async unit :=
  match gameState c, dungeon c with
  | Some gs, Some _ =>
      let k := toLowerCase key in
      if (String.eqb k "w") || (String.eqb k "arrowup") then
        movePlayer (gameState c) "up"
      else if (String.eqb k "s") || (String.eqb k "arrowdown") then
        movePlayer (gameState c) "down"
      else if (String.eqb k "a") || (String.eqb k "arrowleft") then
        movePlayer (gameState c) "left"
      else if (String.eqb k "d") || (String.eqb k "arrowright") then
        movePlayer (gameState c) "right"
      else if String.eqb k "i" then
        update (setShowInventory (negb (showInventory c)))
      else if String.eqb k "1" then
        when (in_combat gs) (performCombatAction (gameState c) "attack")
      else if String.eqb k "2" then
        when (in_combat gs) (performCombatAction (gameState c) "flee")
      else Ret tt
  | _, _ => Ret tt
  end.

(** The remote authority, as the client meets it: given the requests sent
    so far, the answer to the next one, or [None] when the call fails. *)
Definition Server : Type := list Request -> forall r : Request, option (Reply r).

(** What running a handler leaves: the state cells, the requests sent (in
    order), the console lines, and whether an exception went uncaught,
    thrown past the handler or by an updater when React ran it.  The
    component does not survive an uncaught exception; [client] is then
    the state up to it. *)
Record Outcome := mkOutcome
  { client : Client;
    sent : list Request;
    console : list string;
    escaped : bool }.

Fixpoint run_from {A : Type} (m : Async A) (server : Server) (c : Client)
    (requests : list Request) (lines : list string) : Outcome :=
  match m with
  | Ret _ => mkOutcome c requests lines false
  | Throw => mkOutcome c requests lines true
  | SetState f k => run_from k server (f c) requests lines
  | SetStateBy updater k =>
      match updater c with
      | Some c' => run_from k server c' requests lines
      | None =>
          let o := run_from k server c requests lines in
          mkOutcome c (sent o) (console o) true
      end
  | Axios r k => run_from (k (server requests r)) server c (requests ++ [r])%list lines
  | ConsoleError msg k => run_from k server c requests (lines ++ [msg])%list
  end.

Definition run {A : Type} (m : Async A) (server : Server) (c : Client)
    : Outcome :=
  run_from m server c [] [].

(** *** Rendering: which glyph a cell shows *)

(** [arr.includes(v)] *)
Definition includes (arr : list string) (v : string) : bool :=
  existsb (String.eqb v) arr.

Definition treasure_emoji (treasure : Treasure) : string :=
  if String.eqb (t_type treasure) "gold" then "ğŸ’°"
  else if String.eqb (t_type treasure) "potion" then "ğŸ§ª"
  else if String.eqb (t_type treasure) "weapon" then "âš”ï¸"
  else "ğŸ›¡ï¸".

Definition enemy_emoji (enemy : Enemy) : string :=
  if String.eqb (e_type enemy) "goblin" then "ğŸ‘¹"
  else if String.eqb (e_type enemy) "orc" then "ğŸ‘º"
  else if String.eqb (e_type enemy) "skeleton" then "ğŸ’€"
  else if String.eqb (e_type enemy) "spider" then "ğŸ•·ï¸"
  else "ğŸ€".

Definition key_emoji (key : KeyEntity) : string :=
  if String.eqb (k_type key) "gold" then "ğŸ”"
  else if String.eqb (k_type key) "silver" then "ğŸ”‘"
  else "ğŸ—ï¸".

Definition trap_emoji : string := "âš ï¸".

Definition door_emoji (door : DoorEntity) : string :=
  if d_locked door then "ğŸšª" else "ğŸ”“".

Definition chest_emoji (chest : ChestEntity) : string :=
  if c_locked chest then "ğŸ“¦" else "ğŸ“‚".

(** [heroes[gameState.hero_class]?.[gameState.hero_gender]?.emoji || "..."] *)
Definition hero_glyph (heroes : gmap string (gmap string Hero))
    (gs : GameState) : string :=
  match heroes !! hero_class gs ≫= (fun genders => genders !! hero_gender gs) with
  | Some heroData =>
      if String.eqb (hero_emoji heroData) "" then "ğŸ§™â€â™‚ï¸"
      else hero_emoji heroData
  | None => "ğŸ§™â€â™‚ï¸"
  end.

(** The six [find] calls at cell (x, y). *)
Definition find_treasure (d : Dungeon) (gs : GameState) (x y : Z)
    : option Treasure :=
  List.find (fun t => (t_x t =? x) && (t_y t =? y) &&
                      negb (includes (collected_treasures gs) (t_id t)))
    (treasures d).

Definition find_enemy (d : Dungeon) (x y : Z) : option Enemy :=
  List.find (fun e => (e_x e =? x) && (e_y e =? y) && e_alive e) (enemies d).

Definition find_trap (d : Dungeon) (x y : Z) : option Trap :=
  List.find (fun t => (tr_x t =? x) && (tr_y t =? y)) (traps d).

Definition find_door (d : Dungeon) (x y : Z) : option DoorEntity :=
  List.find (fun d' => (d_x d' =? x) && (d_y d' =? y)) (doors d).

Definition find_chest (d : Dungeon) (gs : GameState) (x y : Z)
    : option ChestEntity :=
  List.find (fun c => (c_x c =? x) && (c_y c =? y) &&
                      negb (includes (opened_chests gs) (c_id c)))
    (chests d).

Definition find_key (d : Dungeon) (gs : GameState) (x y : Z)
    : option KeyEntity :=
  List.find (fun k => (k_x k =? x) && (k_y k =? y) &&
                      negb (includes (collected_keys gs) (k_id k)))
    (keys d).

(** The assignments to [emoji] in the cell callback, in their order.  The
    callback also picks a background colour from the theme; that is left
    to the render layer. *)
Definition resolve (hero : string) (isPlayer isDiscovered : bool) (cell : Z)
    (treasure : option Treasure) (enemy : option Enemy) (trap : option Trap)
    (door : option DoorEntity) (chest : option ChestEntity)
    (key : option KeyEntity) : string :=
  let emoji := "" in
  let emoji :=
    if cell =? 0 then emoji
    else if cell =? 2 then
      match door with
      | Some door' => if isDiscovered then door_emoji door' else emoji
      | None => emoji
      end
    else if cell =? 3 then
      match chest with
      | Some chest' => if isDiscovered then chest_emoji chest' else emoji
      | None => emoji
      end
    else emoji in
  let emoji :=
    if isPlayer then hero
    else if isDiscovered && negb (cell =? 1) then
      match key, treasure, enemy, trap with
      | Some key', _, _, _ => key_emoji key'
      | None, Some treasure', _, _ => treasure_emoji treasure'
      | None, None, Some enemy', _ => enemy_emoji enemy'
      | None, None, None, Some _ => trap_emoji
      | None, None, None, None => emoji
      end
    else emoji in
  if negb isDiscovered && negb isPlayer then "" else emoji.

(** The glyph of the cell at row [y], column [x]; [None] when reading
    [discovered_tiles[y][x]] throws for want of the row. *)
Definition renderCell (heroes : gmap string (gmap string Hero))
    (d : Dungeon) (gs : GameState) (y x : Z) (cell : Z) : option string :=
  let isPlayer := (player_x gs =? x) && (player_y gs =? y) in
  row ← js_get (discovered_tiles gs) y;
  Some (resolve (hero_glyph heroes gs) isPlayer (row_lit row x) cell
          (find_treasure d gs x y) (find_enemy d x y) (find_trap d x y)
          (find_door d x y) (find_chest d gs x y) (find_key d gs x y)).

(** What [renderDungeon] produces: nothing without a dungeon and a game,
    else the glyphs of [dungeon.grid.map((row, y) => row.map((cell, x) => ...))],
    unless a cell throws. *)
Inductive Rendered : Type :=
| RenderNull
| RenderThrows
| RenderGrid (glyphs : list (list string)).

Definition renderDungeon (c : Client) : Rendered :=
  match dungeon c, gameState c with
  | Some d, Some gs =>
      match
        mapM (fun '(y, row) =>
                mapM (fun '(x, cell) =>
                        renderCell (heroes c) d gs (Z.of_nat y) (Z.of_nat x) cell)
                  (imap pair row))
          (imap pair (grid d))
      with
      | Some glyphs => RenderGrid glyphs
      | None => RenderThrows
      end
  | _, _ => RenderNull
  end.

(** The dungeon with the collected treasures, the opened chests and the
    collected keys struck from its lists. *)
Definition without_consumed (d : Dungeon) (gs : GameState) : Dungeon :=
  mkDungeon (dungeon_id d) (width d) (height d) (grid d) (theme d)
    (difficulty d)
    (List.filter (fun t => negb (includes (collected_treasures gs) (t_id t)))
       (treasures d))
    (enemies d) (traps d) (doors d)
    (List.filter (fun c => negb (includes (opened_chests gs) (c_id c)))
       (chests d))
    (List.filter (fun k => negb (includes (collected_keys gs) (k_id k)))
       (keys d)).

(** Where the glyph of the cell (x, y) may come from: nothing, the hero, or
    an entity of the dungeon that stands on the cell and, for treasures,
    chests and keys, is not in the collected or opened list of its kind. *)
Inductive glyph_from (hs : gmap string (gmap string Hero)) (d : Dungeon)
    (gs : GameState) (x y : Z) : string -> Prop :=
| from_nothing : glyph_from hs d gs x y ""
| from_hero :
    player_x gs = x -> player_y gs = y ->
    glyph_from hs d gs x y (hero_glyph hs gs)
| from_key (k : KeyEntity) :
    In k (keys d) -> k_x k = x -> k_y k = y ->
    includes (collected_keys gs) (k_id k) = false ->
    glyph_from hs d gs x y (key_emoji k)
| from_treasure (t : Treasure) :
    In t (treasures d) -> t_x t = x -> t_y t = y ->
    includes (collected_treasures gs) (t_id t) = false ->
    glyph_from hs d gs x y (treasure_emoji t)
| from_enemy (e : Enemy) :
    In e (enemies d) -> e_x e = x -> e_y e = y -> e_alive e = true ->
    glyph_from hs d gs x y (enemy_emoji e)
| from_trap (t : Trap) :
    In t (traps d) -> tr_x t = x -> tr_y t = y ->
    glyph_from hs d gs x y trap_emoji
| from_door (dr : DoorEntity) :
    In dr (doors d) -> d_x dr = x -> d_y dr = y ->
    glyph_from hs d gs x y (door_emoji dr)
| from_chest (ch : ChestEntity) :
    In ch (chests d) -> c_x ch = x -> c_y ch = y ->
    includes (opened_chests gs) (c_id ch) = false ->
    glyph_from hs d gs x y (chest_emoji ch).

(** *** The other state cells, the views and the panels *)

Definition setDungeon (d : option Dungeon) (c : Client) : Client :=
  mkClient (gameState c) d (heroes c) (combatLog c) (showInventory c)
    (currentView c).

Definition setHeroes (hs : gmap string (gmap string Hero)) (c : Client)
    : Client :=
  mkClient (gameState c) (dungeon c) hs (combatLog c) (showInventory c)
    (currentView c).

Definition setCurrentView (view : string) (c : Client) : Client :=
  mkClient (gameState c) (dungeon c) (heroes c) (combatLog c)
    (showInventory c) view.

Definition startHeroSelection (c : Client) : Client :=
  setCurrentView "hero-select" c.

(** Which screen the component returns: the menu, the hero selection, and
    for every other value of [currentView] the game screen. *)
Inductive Screen : Type := MenuScreen | HeroSelectScreen | GameScreen.

Definition screen (c : Client) : Screen :=
  if String.eqb (currentView c) "menu" then MenuScreen
  else if String.eqb (currentView c) "hero-select" then HeroSelectScreen
  else GameScreen.

(** [renderCombatInterface]: whether it returns the panel with the two
    buttons rather than [null]. *)
Definition renderCombatInterface (c : Client) : bool :=
  match gameState c with
  | Some gs => in_combat gs
  | None => false
  end.

(** [renderInventory]: [None] for [null], else the items the overlay lists
    (none of them: the line "No items"). *)
Definition renderInventory (c : Client) : option (list Item) :=
  if negb (showInventory c) then None
  else match gameState c with
       | Some gs => Some (inventory gs)
       | None => None
       end.

(** [arr.slice(-n)]: the last [n] elements, all of them when there are
    fewer. *)
Definition slice_last {A : Type} (n : nat) (arr : list A) : list A :=
  drop (length arr - n) arr.

(** The combat log panel: absent for an empty log, else the lines of
    [combatLog.slice(-5)]. *)
Definition logPanel (c : Client) : option (list (option string)) :=
  match combatLog c with
  | [] => None
  | _ => Some (slice_last 5 (combatLog c))
  end.

(** *** What the handlers are made of *)

(** An update that never throws, as an updater. *)
Definition total (f : Client -> Client) : Client -> option Client :=
  fun c => Some (f c).

(** The five shapes of state update the game handlers perform. *)
Inductive handler_update : (Client -> option Client) -> Prop :=
| update_install (fetched : option GameState) :
    handler_update (total (setGameState (fun _ => fetched)))
| update_patch (hp : Z) :
    handler_update (total (setGameState (fmap (patch_player_hp hp))))
| update_log (more : list (option string)) :
    handler_update (total (setCombatLog (fun prev => (prev ++ more)%list)))
| update_inventory (b : bool) :
    handler_update (total (setShowInventory b))
| update_combat_started (result : MoveResult.t) :
    handler_update (setCombatLogBy (combat_started result)).

(** Every state update of a handler, on every path, satisfies [P]. *)
Inductive updates_satisfy {A : Type} (P : (Client -> option Client) -> Prop)
    : Async A -> Prop :=
| us_ret (a : A) : updates_satisfy P (Ret a)
| us_throw : updates_satisfy P Throw
| us_set (f : Client -> Client) (k : Async A) :
    P (total f) -> updates_satisfy P k -> updates_satisfy P (SetState f k)
| us_set_by (updater : Client -> option Client) (k : Async A) :
    P updater -> updates_satisfy P k ->
    updates_satisfy P (SetStateBy updater k)
| us_axios (r : Request) (k : option (Reply r) -> Async A) :
    (forall o, updates_satisfy P (k o)) -> updates_satisfy P (Axios r k)
| us_console (msg : string) (k : Async A) :
    updates_satisfy P k -> updates_satisfy P (ConsoleError msg k).

(** A server whose accepted moves name the enemy of the combat they
    announce. *)
Definition names_enemies (server : Server) : Prop :=
  forall requests game_id direction result,
    server requests (PostMovePlayer game_id direction) = Some result ->
    MoveResult.success result = true ->
    MoveResult.in_combat result = true ->
    is_Some (MoveResult.combat_enemy result).

(** The game a request is addressed to. *)
Definition request_game (r : Request) : string :=
  match r with
  | PostMovePlayer game_id _ => game_id
  | GetGame game_id => game_id
  | PostCombat game_id _ => game_id
  end.

(** *** Entities on a cell *)

(** An uncollected key, an uncollected treasure, a living enemy, a trap, a
    door and an unopened chest on the cell (x, y). *)
Definition key_here (gs : GameState) (x y : Z) (k : KeyEntity) : Prop :=
  k_x k = x /\ k_y k = y /\ includes (collected_keys gs) (k_id k) = false.

Definition treasure_here (gs : GameState) (x y : Z) (t : Treasure) : Prop :=
  t_x t = x /\ t_y t = y /\
  includes (collected_treasures gs) (t_id t) = false.

Definition enemy_here (x y : Z) (e : Enemy) : Prop :=
  e_x e = x /\ e_y e = y /\ e_alive e = true.

Definition trap_here (x y : Z) (t : Trap) : Prop := tr_x t = x /\ tr_y t = y.

Definition door_here (x y : Z) (dr : DoorEntity) : Prop :=
  d_x dr = x /\ d_y dr = y.

Definition chest_here (gs : GameState) (x y : Z) (ch : ChestEntity) : Prop :=
  c_x ch = x /\ c_y ch = y /\ includes (opened_chests gs) (c_id ch) = false.

(** Requests that all name the game [gs], two at most, the second being
    the fetch of that game. *)
Definition addressed (gs : GameState) (requests : list Request) : Prop :=
  Forall (fun r => request_game r = id gs) requests /\
  (length requests <= 2)%nat /\
  (forall r, In r (tail requests) -> r = GetGame (id gs)).

(** *** Sample servers, sessions and answers *)

(** A server with one answer for each kind of request. *)
Definition answers (move : option MoveResult.t) (game : option GameState)
    (combat : option CombatResult.t) : Server :=
  fun _ r =>
    match r as r' return option (Reply r') with
    | PostMovePlayer _ _ => move
    | GetGame _ => Some <$> game
    | PostCombat _ _ => combat
    end.


(** The same answer with its report of the defeat taken out, and the
    server that answers so. *)
Definition spared (result : CombatResult.t) : CombatResult.t :=
  CombatResult.mk (CombatResult.combat_log result)
    (CombatResult.combat_ended result) (CombatResult.player_hp result) false.

Definition without_defeat (server : Server) : Server :=
  fun requests r =>
    match r as r' return option (Reply r') -> option (Reply r') with
    | PostCombat _ _ => fmap spared
    | _ => fun answer => answer
    end (server requests r).


(** A session in the 5x5 dungeon, in combat or not. *)
Definition session (fighting : bool) (hp : Z) : GameState :=
  mkGameState "g1" 2 2 (dark 5 5) "wizard" "male" hp 100 10 5 0 0 1 7 [] []
    [] [] fighting.

Definition playing (gs : GameState) : Client :=
  mkClient (Some gs) (Some (open_dungeon 5 5)) ∅ [] false "game".

(** An answer that reports the player's defeat while the combat goes on,
    and one that reports the defeat and the end of the combat. *)
Definition beaten : CombatResult.t :=
  CombatResult.mk ["The orc hits you for 12."] false 0 true.

Definition beaten_and_over : CombatResult.t :=
  CombatResult.mk ["You have fallen."] true 0 true.

Definition struck : CombatResult.t :=
  CombatResult.mk ["You hit the orc for 4."; "The orc hits you for 12."]
    false 88 false.

Definition orc_slain : CombatResult.t :=
  CombatResult.mk ["You slay the orc."] true 88 false.

(** A 3x3 dungeon with gold, a locked chest and a silver key on the cell
    (1,1); a session that has taken all three, and one that has taken
    none.  Every tile is discovered and the player stands at (0,0). *)
Definition gold : Treasure := mkTreasure "t1" 1 1 "gold".
Definition strongbox : ChestEntity := mkChest "c1" 1 1 true.
Definition silver_key : KeyEntity := mkKey "k1" 1 1 "silver".

Definition stocked_dungeon : Dungeon :=
  mkDungeon "d3" 3 3 [[Floor; Floor; Floor]; [Floor; Chest; Floor];
                      [Floor; Floor; Floor]]
    "cave" "easy" [gold] [] [] [] [strongbox] [silver_key].

Definition looted : GameState :=
  mkGameState "g3" 0 0 (lit_all 3 3) "wizard" "male" 100 100 10 5 0 0 1 4 []
    ["t1"] ["c1"] ["k1"] false.

Definition untouched : GameState :=
  mkGameState "g3" 0 0 (lit_all 3 3) "wizard" "male" 100 100 10 5 0 0 1 4 []
    [] [] [] false.

(** A corridor of three floor cells: gold and a living rat on (0,0), the
    bones of a skeleton and a pit on (1,0). *)
Definition coin : Treasure := mkTreasure "t9" 0 0 "gold".
Definition rat : Enemy := mkEnemy "e2" 0 0 "rat" true.
Definition bones : Enemy := mkEnemy "e1" 1 0 "skeleton" false.
Definition goblin : Enemy := mkEnemy "e7" 2 1 "goblin" true.
Definition pit : Trap := mkTrap 1 0.

Definition haunted_corridor : Dungeon :=
  mkDungeon "d4" 3 1 [[Floor; Floor; Floor]] "crypt" "hard" [coin]
    [rat; bones] [pit] [] [] [].

(** A client with seven lines in its log. *)
Definition chatty : Client :=
  mkClient (Some (session false 100)) (Some (open_dungeon 5 5)) ∅
    [Some "one"; Some "two"; Some "three"; Some "four"; Some "five";
     Some "six"; Some "seven"]
    false "game".

(** A server that accepts every move and reports a goblin. *)
Definition goblin_ahead : Server :=
  answers (Some (MoveResult.mk true (Some "You step forward.") true
                   (Some goblin)))
    (Some (session true 100)) None.

End Remote.

(** ** Starting a session *)

Module Startup.

Import Remote.

(** [selectedHero] *)
Record SelectedHero := mkSelectedHero { class : string; gender : string }.

(** The component with the state cells the game handlers do not touch. *)
Record App := mkApp
  { client : Client;
    loading : bool;
    selectedDifficulty : string;
    selectedHero : SelectedHero }.

(** The state of the component when it mounts. *)
Definition initial : App :=
  mkApp (mkClient None None ∅ [] false "menu") false "medium"
    (mkSelectedHero "wizard" "male").

Definition setClient (f : Client -> Client) (a : App) : App :=
  mkApp (f (client a)) (loading a) (selectedDifficulty a) (selectedHero a).

Definition setLoading (b : bool) (a : App) : App :=
  mkApp (client a) b (selectedDifficulty a) (selectedHero a).

Definition setSelectedDifficulty (value : string) (a : App) : App :=
  mkApp (client a) (loading a) value (selectedHero a).

Definition setSelectedHero (hero : SelectedHero) (a : App) : App :=
  mkApp (client a) (loading a) (selectedDifficulty a) hero.

(** The requests made before a game exists, and their answers.  The bodies
    of the two POSTs go into [dungeon] and [gameState] as they come, each
    an object or [null]. *)
Inductive Request : Type :=
| GetHeroes
| PostGenerateDungeon (difficulty : string)
| PostStartGame (dungeon_id : string) (hero_class : string) (gender : string).

Definition Reply (r : Request) : Type :=
  match r with
  | GetHeroes => gmap string (gmap string Hero)
  | PostGenerateDungeon _ => option Dungeon
  | PostStartGame _ _ _ => option GameState
  end.

(** Async handlers over [App], as [Remote.Async] is over [Client]. *)
Inductive Async (A : Type) : Type :=
| Ret (a : A)
| Throw
| SetState (f : App -> App) (k : Async A)
| Axios (r : Request) (k : option (Reply r) -> Async A)
| ConsoleError (msg : string) (k : Async A).
Arguments Ret {A} a.
Arguments Throw {A}.
Arguments SetState {A} f k.
Arguments Axios {A} r k.
Arguments ConsoleError {A} msg k.

Fixpoint bind {A B : Type} (m : Async A) (f : A -> Async B) : Async B :=
  match m with
  | Ret a => f a
  | Throw => Throw
  | SetState g k => SetState g (bind k f)
  | Axios r k => Axios r (fun o => bind (k o) f)
  | ConsoleError msg k => ConsoleError msg (bind k f)
  end.

#[local] Instance Async_bind : MBind Async := fun A B f m => bind m f.
#[local] Instance Async_ret : MRet Async := fun A a => Ret a.

Fixpoint try_catch {A : Type} (body handler : Async A) : Async A :=
  match body with
  | Ret a => Ret a
  | Throw => handler
  | SetState g k => SetState g (try_catch k handler)
  | Axios r k => Axios r (fun o => try_catch (k o) handler)
  | ConsoleError msg k => ConsoleError msg (try_catch k handler)
  end.

(** [try { body } finally { cleanup }]: the cleanup runs when the body
    returns and when it throws, and the exception then goes on. *)
Fixpoint try_finally {A : Type} (body : Async A) (cleanup : Async unit)
    : Async A :=
  match body with
  | Ret a => bind cleanup (fun _ => Ret a)
  | Throw => bind cleanup (fun _ => Throw)
  | SetState g k => SetState g (try_finally k cleanup)
  | Axios r k => Axios r (fun o => try_finally (k o) cleanup)
  | ConsoleError msg k => ConsoleError msg (try_finally k cleanup)
  end.

Definition await (r : Request) : Async (Reply r) :=
  Axios r (fun o => match o with Some data => Ret data | None => Throw end).

Definition update (f : App -> App) : Async unit := SetState f (Ret tt).

Definition console_error (msg : string) : Async unit :=
  ConsoleError msg (Ret tt).

(** [dungeonData.id]: a TypeError when the body is [null]. *)
Definition dungeonData_id (dungeonData : option Dungeon) : Async string :=
  match dungeonData with
  | Some d => Ret (dungeon_id d)
  | None => Throw
  end.

(** [loadHeroes], run once by the effect of the mount. *)
Definition loadHeroes : Async unit :=
  try_catch
    (data ← await GetHeroes;
     update (setClient (setHeroes data)))
    (console_error "Error loading heroes:").

(** [generateDungeon], with the [selectedDifficulty] and [selectedHero] of
    the render it closes over. *)
Definition generateDungeon (a : App) : Async unit :=
  update (setLoading true) ;;
  try_finally
    (try_catch
       (dungeonData ← await (PostGenerateDungeon (selectedDifficulty a));
        update (setClient (setDungeon dungeonData)) ;;
        dungeon_id ← dungeonData_id dungeonData;
        gameData ← await (PostStartGame dungeon_id
                            (class (selectedHero a))
                            (gender (selectedHero a)));
        update (setClient (setGameState (fun _ => gameData))) ;;
        update (setClient (setCurrentView "game")) ;;
        update (setClient (setCombatLog (fun _ => []))))
       (console_error "Error generating dungeon:"))
    (update (setLoading false)).

Definition Server : Type := list Request -> forall r : Request, option (Reply r).

Record Outcome := mkOutcome
  { app : App;
    sent : list Request;
    console : list string;
    escaped : bool }.

Fixpoint run_from {A : Type} (m : Async A) (server : Server) (a : App)
    (requests : list Request) (lines : list string) : Outcome :=
  match m with
  | Ret _ => mkOutcome a requests lines false
  | Throw => mkOutcome a requests lines true
  | SetState f k => run_from k server (f a) requests lines
  | Axios r k =>
      run_from (k (server requests r)) server a (requests ++ [r])%list lines
  | ConsoleError msg k => run_from k server a requests (lines ++ [msg])%list
  end.

Definition run {A : Type} (m : Async A) (server : Server) (a : App)
    : Outcome :=
  run_from m server a [] [].

(** A server with one answer for each kind of request. *)
Definition answers (hs : option (gmap string (gmap string Hero)))
    (dungeon : option Dungeon) (game : option GameState) : Server :=
  fun _ r =>
    match r as r' return option (Reply r') with
    | GetHeroes => hs
    | PostGenerateDungeon _ => Some <$> dungeon
    | PostStartGame _ _ _ => Some <$> game
    end.

End Startup.

(** ** The component as a machine *)

Module Machine.

Import Remote.

(** What can happen to the mounted component: the effect of the mount
    (which may run more than once), the controls of the three screens, and
    a key pressed anywhere. *)
Inductive Event : Type :=
| Mount
| SelectDifficulty (value : string)
| ClickChooseHero
| ClickHero (heroClass : string) (gender : string)
| ClickBack
| ClickStart
| ClickMenu
| ClickInventory
| ClickCloseInventory
| ClickAttack
| ClickFlee
| KeyDown (key : string).

(** The two halves of the server. *)
Record World := mkWorld
  { game_server : Remote.Server;
    startup_server : Startup.Server }.

(** Whether the control of an event is on the screen and not disabled.  The
    difficulty select offers three values, the hero cards are those of
    [heroes], the two start buttons are disabled while loading; the key
    listener is on the window, whatever the screen. *)
Definition enabled (a : Startup.App) (e : Event) : bool :=
  let c := Startup.client a in
  match e with
  | Mount => true
  | KeyDown _ => true
  | SelectDifficulty value =>
      match screen c with
      | MenuScreen =>
          String.eqb value "easy" || String.eqb value "medium" ||
          String.eqb value "hard"
      | _ => false
      end
  | ClickChooseHero =>
      match screen c with
      | MenuScreen => negb (Startup.loading a)
      | _ => false
      end
  | ClickHero heroClass gender =>
      match screen c with
      | HeroSelectScreen =>
          match heroes c !! heroClass with
          | Some genders => bool_decide (is_Some (genders !! gender))
          | None => false
          end
      | _ => false
      end
  | ClickBack =>
      match screen c with HeroSelectScreen => true | _ => false end
  | ClickStart =>
      match screen c with
      | HeroSelectScreen => negb (Startup.loading a)
      | _ => false
      end
  | ClickMenu | ClickInventory =>
      match screen c with GameScreen => true | _ => false end
  | ClickCloseInventory =>
      match screen c with
      | GameScreen => bool_decide (is_Some (renderInventory c))
      | _ => false
      end
  | ClickAttack | ClickFlee =>
      match screen c with
      | GameScreen => renderCombatInterface c
      | _ => false
      end
  end.

(** The game handlers act on the state cells they know. *)
Definition in_game (server : Remote.Server) (m : Remote.Async unit)
    (a : Startup.App) : Startup.App :=
  Startup.setClient
    (fun c => Remote.client (Remote.run m server c)) a.

(** The handler of an event, run to its end before the next event; handlers
    that overlap in time are not modelled. *)
Definition handle (w : World) (e : Event) (a : Startup.App) : Startup.App :=
  let c := Startup.client a in
  match e with
  | Mount =>
      Startup.app (Startup.run Startup.loadHeroes (startup_server w) a)
  | SelectDifficulty value => Startup.setSelectedDifficulty value a
  | ClickChooseHero => Startup.setClient startHeroSelection a
  | ClickHero heroClass gender =>
      Startup.setSelectedHero (Startup.mkSelectedHero heroClass gender) a
  | ClickBack | ClickMenu => Startup.setClient (setCurrentView "menu") a
  | ClickStart =>
      Startup.app
        (Startup.run (Startup.generateDungeon a) (startup_server w) a)
  | ClickInventory => Startup.setClient (setShowInventory true) a
  | ClickCloseInventory => Startup.setClient (setShowInventory false) a
  | ClickAttack =>
      in_game (game_server w) (performCombatAction (gameState c) "attack") a
  | ClickFlee =>
      in_game (game_server w) (performCombatAction (gameState c) "flee") a
  | KeyDown key => in_game (game_server w) (handleKeyPress c key) a
  end.

Definition step (w : World) (e : Event) (a : Startup.App) : Startup.App :=
  if enabled a e then handle w e a else a.

(** Whether the handler of an event ends in an uncaught exception. *)
Definition crashes (w : World) (e : Event) (a : Startup.App) : bool :=
  let c := Startup.client a in
  match e with
  | Mount =>
      Startup.escaped (Startup.run Startup.loadHeroes (startup_server w) a)
  | ClickStart =>
      Startup.escaped
        (Startup.run (Startup.generateDungeon a) (startup_server w) a)
  | ClickAttack =>
      escaped (run (performCombatAction (gameState c) "attack")
                 (game_server w) c)
  | ClickFlee =>
      escaped (run (performCombatAction (gameState c) "flee")
                 (game_server w) c)
  | KeyDown key => escaped (run (handleKeyPress c key) (game_server w) c)
  | _ => false
  end.

(** A run of the component: events, each met by a server of its own.  An
    exception that goes uncaught unmounts the component: its run ends
    there, with the last state it had. *)
Fixpoint steps (history : list (World * Event)) (a : Startup.App)
    : Startup.App :=
  match history with
  | [] => a
  | (w, e) :: rest =>
      if enabled a e && crashes w e a then a
      else steps rest (step w e a)
  end.

(** What holds of the component between any two events. *)
Definition settled (a : Startup.App) : Prop :=
  let c := Startup.client a in
  Startup.loading a = false /\
  (currentView c = "menu" \/ currentView c = "hero-select" \/
   currentView c = "game") /\
  (Startup.selectedDifficulty a = "easy" \/
   Startup.selectedDifficulty a = "medium" \/
   Startup.selectedDifficulty a = "hard") /\
  (is_Some (gameState c) -> is_Some (dungeon c)) /\
  (currentView c = "game" -> is_Some (gameState c)).

(** The part of it that holds whatever the servers answer. *)
Definition steady (a : Startup.App) : Prop :=
  let c := Startup.client a in
  Startup.loading a = false /\
  (currentView c = "menu" \/ currentView c = "hero-select" \/
   currentView c = "game") /\
  (Startup.selectedDifficulty a = "easy" \/
   Startup.selectedDifficulty a = "medium" \/
   Startup.selectedDifficulty a = "hard").

(** A world none of whose answers has [null] for a body. *)
Definition answers_in_full (w : World) : Prop :=
  (forall requests game_id,
     game_server w requests (GetGame game_id) <> Some None) /\
  (forall requests difficulty,
     startup_server w requests (Startup.PostGenerateDungeon difficulty)
     <> Some None) /\
  (forall requests dungeon_id hero_class gender,
     startup_server w requests
       (Startup.PostStartGame dungeon_id hero_class gender) <> Some None).

End Machine.

(** A world whose servers answer every request. *)
Definition friendly : Machine.World :=
  Machine.mkWorld Remote.goblin_ahead
    (Startup.answers (Some ∅) (Some (open_dungeon 5 5))
       (Some (Remote.session false 100))).

(** One row of the rendered grid, for a given way to render a cell. *)
Definition render_row (cellf : Z -> Z -> Z -> option string) (y : nat)
    (row : list Z) : option (list string) :=
  mapM (fun '(x, cell) => cellf (Z.of_nat y) (Z.of_nat x) cell)
    (imap pair row).

(** ** Sessions of the local client *)

(** The player stands inside [dungeon.width] x [dungeon.height]. *)
Definition in_grid (d : Dungeon) (gs : GameState) : Prop :=
  0 <= player_x gs < width d /\ 0 <= player_y gs < height d.

(** The player stands on a floor cell. *)
Definition on_floor (d : Dungeon) (gs : GameState) : Prop :=
  grid_cell d (player_y gs) (player_x gs) = Some (Some Floor).

(** The player is inside the grid, and the grid and the discovery map have
    a row for every [y] below [dungeon.height]. *)
Definition well_formed (d : Dungeon) (gs : GameState) : Prop :=
  in_grid d gs /\
  height d <= Z.of_nat (length (grid d)) /\
  height d <= Z.of_nat (length (discovered_tiles gs)).

(** Two game states differ at most in position, discovery and move count. *)
Definition same_stats (gs gs' : GameState) : Prop :=
  id gs' = id gs /\ hero_class gs' = hero_class gs /\
  hero_gender gs' = hero_gender gs /\ player_hp gs' = player_hp gs /\
  max_hp gs' = max_hp gs /\ player_attack gs' = player_attack gs /\
  player_defense gs' = player_defense gs /\
  player_magic gs' = player_magic gs /\
  player_agility gs' = player_agility gs /\
  player_level gs' = player_level gs /\ inventory gs' = inventory gs /\
  collected_treasures gs' = collected_treasures gs /\
  opened_chests gs' = opened_chests gs /\
  collected_keys gs' = collected_keys gs /\ in_combat gs' = in_combat gs.

(** Every press of the session completes normally. *)
Fixpoint all_normal (dungeon : option Dungeon) (presses : list string)
    (gameState : option GameState) : bool :=
  match presses with
  | [] => true
  | key :: rest =>
      match Local.handleKeyPress gameState dungeon key with
      | Normal s => all_normal dungeon rest s
      | TypeError _ => false
      end
  end.

(** The clipped 3x3 block around the player is discovered. *)
Definition surroundings_lit (d : Dungeon) (gs : GameState) : Prop :=
  forall y x,
    revealed d (player_x gs) (player_y gs) y x = true ->
    lit (discovered_tiles gs) y x = true.

(** * Proofs *)

(** ** Reading and writing tiles *)

Section TileFacts.

Lemma js_get_neg {A : Type} (arr : list A) (i : Z) : i < 0 -> js_get arr i = None.
Proof. intros H. unfold js_get. destruct (Z.leb_spec 0 i); [lia | reflexivity]. Qed.

Lemma js_get_nonneg {A : Type} (arr : list A) (i : Z) :
  0 <= i -> js_get arr i = arr !! Z.to_nat i.
Proof. intros H. unfold js_get. destruct (Z.leb_spec 0 i); [reflexivity | lia]. Qed.

Lemma js_get_is_Some {A : Type} (arr : list A) (i : Z) :
  0 <= i < Z.of_nat (length arr) -> is_Some (js_get arr i).
Proof.
  intros H. rewrite js_get_nonneg by lia. apply lookup_lt_is_Some. lia.
Qed.

Lemma js_get_Some_range {A : Type} (arr : list A) (i : Z) (a : A) :
  js_get arr i = Some a -> 0 <= i < Z.of_nat (length arr).
Proof.
  unfold js_get. destruct (Z.leb_spec 0 i); [|discriminate].
  intros H1. apply lookup_lt_Some in H1. lia.
Qed.

Lemma row_lit_js_set (row : list bool) (i x : Z) :
  0 <= i -> row_lit (js_set row i true) x = (x =? i) || row_lit row x.
Proof.
  intros Hi. unfold row_lit, js_set.
  destruct (Z.ltb_spec i 0); [lia|].
  destruct (Z.le_gt_cases 0 x) as [Hx|Hx].
  2:{ rewrite !js_get_neg by lia. destruct (Z.eqb_spec x i); [lia | reflexivity]. }
  rewrite !js_get_nonneg by lia.
  destruct (Nat.ltb_spec (Z.to_nat i) (length row)) as [Hlt|Hge].
  - destruct (Z.eqb_spec x i) as [->|Hne].
    + rewrite list_lookup_insert_eq by lia. reflexivity.
    + rewrite list_lookup_insert_ne by lia. reflexivity.
  - destruct (Nat.lt_ge_cases (Z.to_nat x) (length row)) as [Hx1|Hx1].
    + rewrite lookup_app_l by lia.
      destruct (Z.eqb_spec x i); [lia | reflexivity].
    + rewrite lookup_app_r by lia.
      rewrite (lookup_ge_None_2 row) by lia.
      destruct (Nat.lt_ge_cases (Z.to_nat x - length row)
                  (Z.to_nat i - length row)) as [Hx2|Hx2].
      * rewrite lookup_app_l by (rewrite length_replicate; lia).
        rewrite lookup_replicate_2 by lia.
        destruct (Z.eqb_spec x i); [lia | reflexivity].
      * rewrite lookup_app_r by (rewrite length_replicate; lia).
        rewrite length_replicate.
        destruct (Z.eqb_spec x i) as [->|Hne].
        -- replace (Z.to_nat i - length row - (Z.to_nat i - length row))%nat
             with 0%nat by lia. reflexivity.
        -- destruct (Z.to_nat x - length row - (Z.to_nat i - length row))%nat
             as [|k] eqn:Hk; [lia | reflexivity].
Qed.

Lemma lit_insert_row (tiles : Tiles) (y : Z) (row row' : list bool) (y' x' : Z) :
  js_get tiles y = Some row ->
  lit (<[Z.to_nat y := row']> tiles) y' x' =
    if y' =? y then row_lit row' x' else lit tiles y' x'.
Proof.
  intros Hrow. pose proof (js_get_Some_range _ _ _ Hrow) as Hr.
  unfold lit.
  destruct (Z.le_gt_cases 0 y') as [Hy|Hy].
  2:{ rewrite !js_get_neg by lia. destruct (Z.eqb_spec y' y); [lia | reflexivity]. }
  rewrite !js_get_nonneg by lia.
  destruct (Z.eqb_spec y' y) as [->|Hne].
  - rewrite list_lookup_insert_eq by lia. reflexivity.
  - rewrite list_lookup_insert_ne by lia. reflexivity.
Qed.

End TileFacts.

(** Case analysis on the integer tests of a goal. *)
Ltac zcases :=
  repeat match goal with
    | |- context [Z.eqb ?a ?b] =>
        destruct (Z.eqb_spec a b); try (exfalso; lia)
    | |- context [Z.leb ?a ?b] =>
        destruct (Z.leb_spec a b); try (exfalso; lia)
    | |- context [Z.ltb ?a ?b] =>
        destruct (Z.ltb_spec a b); try (exfalso; lia)
    end; cbn [andb orb negb].

(** ** The reveal loops of the local client *)

Section Reveal.

Variable dungeon : Dungeon.
Variables newX newY : Z.

Lemma in_bounds_inv (y x : Z) :
  Local.in_bounds dungeon y x = true ->
  0 <= y < height dungeon /\ 0 <= x < width dungeon.
Proof.
  unfold Local.in_bounds. rewrite !andb_true_iff.
  rewrite !Z.geb_le, !Z.ltb_lt. lia.
Qed.

Lemma inner_loop (checkY : Z) (dxs : list Z) : forall tiles : Tiles,
  (0 <= checkY < height dungeon -> checkY < Z.of_nat (length tiles)) ->
  exists tiles' : Tiles,
    for_each dxs (inner_body dungeon newX checkY) tiles = Normal tiles' /\
    length tiles' = length tiles /\
    forall y x, lit tiles' y x =
                lit tiles y x || ((y =? checkY) && row_hits dungeon newX checkY dxs x).
Proof.
  induction dxs as [|dx dxs IH]; intros tiles Hrows.
  - exists tiles. repeat split.
    intros y x. cbn. now rewrite andb_false_r, orb_false_r.
  - cbn [for_each]. unfold inner_body at 1.
    destruct (Local.in_bounds dungeon checkY (newX + dx)) eqn:Hin.
    + apply in_bounds_inv in Hin as Hb.
      destruct (js_get_is_Some tiles checkY) as [row Hrow]; [lia|].
      unfold Local.mark. rewrite Hrow.
      destruct (IH (<[Z.to_nat checkY := js_set row (newX + dx) true]> tiles))
        as (tiles' & Hrun & Hlen & Hlit).
      { rewrite length_insert. exact Hrows. }
      exists tiles'. split; [exact Hrun|]. split.
      { rewrite Hlen. apply length_insert. }
      intros y x. rewrite Hlit, (lit_insert_row _ _ row) by exact Hrow.
      cbn [row_hits existsb]. fold (row_hits dungeon newX checkY dxs x). rewrite Hin.
      destruct (Z.eqb_spec y checkY) as [->|Hne]; cbn.
      * rewrite row_lit_js_set by lia. unfold lit. rewrite Hrow.
        rewrite andb_true_r.
        destruct (x =? newX + dx), (row_lit row x), (row_hits dungeon newX checkY dxs x);
          reflexivity.
      * reflexivity.
    + destruct (IH tiles Hrows) as (tiles' & Hrun & Hlen & Hlit).
      exists tiles'. repeat split; [exact Hrun | exact Hlen |].
      intros y x. rewrite Hlit. cbn [row_hits existsb].
      fold (row_hits dungeon newX checkY dxs x). rewrite Hin, andb_false_r. reflexivity.
Qed.

Lemma outer_loop (dxs dys : list Z) : forall tiles : Tiles,
  height dungeon <= Z.of_nat (length tiles) ->
  exists tiles' : Tiles,
    for_each dys (fun dy => for_each dxs (inner_body dungeon newX (newY + dy))) tiles
      = Normal tiles' /\
    length tiles' = length tiles /\
    forall y x, lit tiles' y x = lit tiles y x || block_hits dungeon newX newY dys dxs y x.
Proof.
  induction dys as [|dy dys IH]; intros tiles Hrows.
  - exists tiles. repeat split. intros y x. cbn. now rewrite orb_false_r.
  - cbn [for_each].
    destruct (inner_loop (newY + dy) dxs tiles) as (t1 & Hrun1 & Hlen1 & Hlit1);
      [lia|].
    rewrite Hrun1.
    destruct (IH t1) as (t2 & Hrun2 & Hlen2 & Hlit2); [lia|].
    exists t2. split; [exact Hrun2|]. split; [lia|].
    intros y x. rewrite Hlit2, Hlit1. cbn [block_hits existsb].
    fold (block_hits dungeon newX newY dys dxs y x). now rewrite orb_assoc.
Qed.

Lemma row_hits_block (checkY x : Z) :
  row_hits dungeon newX checkY [-1; 0; 1] x =
    (newX - 1 <=? x) && (x <=? newX + 1) && Local.in_bounds dungeon checkY x.
Proof.
  unfold row_hits. cbn [existsb]. rewrite orb_false_r.
  destruct (Z.eqb_spec x (newX + -1)) as [->|H1];
    [|destruct (Z.eqb_spec x (newX + 0)) as [->|H2];
      [|destruct (Z.eqb_spec x (newX + 1)) as [->|H3]]];
    zcases;
    repeat match goal with
      | |- context [Local.in_bounds ?d ?a ?b] =>
          destruct (Local.in_bounds d a b)
      end; reflexivity.
Qed.

Lemma block_hits_revealed (y x : Z) :
  block_hits dungeon newX newY [-1; 0; 1] [-1; 0; 1] y x = revealed dungeon newX newY y x.
Proof.
  unfold block_hits. cbn [existsb]. rewrite orb_false_r, !row_hits_block.
  unfold revealed, Local.in_bounds.
  rewrite !Z.geb_leb.
  destruct (Z.eqb_spec y (newY + -1)) as [->|H1];
    [|destruct (Z.eqb_spec y (newY + 0)) as [->|H2];
      [|destruct (Z.eqb_spec y (newY + 1)) as [->|H3]]];
    zcases; reflexivity.
Qed.

(** With a row for every [y] below [dungeon.height] the loops run to the end
    and light exactly the clipped block. *)
Lemma reveal_exact (tiles : Tiles) :
  height dungeon <= Z.of_nat (length tiles) ->
  exists tiles' : Tiles,
    Local.reveal dungeon newX newY tiles = Normal tiles' /\
    forall y x, lit tiles' y x = lit tiles y x || revealed dungeon newX newY y x.
Proof.
  intros Hrows.
  destruct (outer_loop [-1; 0; 1] [-1; 0; 1] tiles Hrows)
    as (tiles' & Hrun & _ & Hlit).
  exists tiles'. split; [exact Hrun|].
  intros y x. rewrite Hlit. now rewrite block_hits_revealed.
Qed.

End Reveal.

(** ** Discovery only grows *)

Lemma tiles_le_refl (t : Tiles) : tiles_le t t.
Proof. intros y x H. exact H. Qed.

Lemma tiles_le_trans (t1 t2 t3 : Tiles) :
  tiles_le t1 t2 -> tiles_le t2 t3 -> tiles_le t1 t3.
Proof. intros H12 H23 y x H. apply H23, H12, H. Qed.

Lemma row_lit_js_set_mono (row : list bool) (i x : Z) :
  row_lit row x = true -> row_lit (js_set row i true) x = true.
Proof.
  intros H. destruct (Z.lt_ge_cases i 0) as [Hi|Hi].
  - unfold js_set. destruct (Z.ltb_spec i 0); [exact H | lia].
  - rewrite row_lit_js_set by lia. rewrite H. apply orb_true_r.
Qed.

Lemma mark_grows (tiles : Tiles) (checkY checkX : Z) :
  tiles_le tiles (final (Local.mark tiles checkY checkX)).
Proof.
  unfold Local.mark. destruct (js_get tiles checkY) as [row|] eqn:Hrow; cbn.
  - intros y x H. rewrite (lit_insert_row _ _ row) by exact Hrow.
    destruct (Z.eqb_spec y checkY) as [->|Hne]; [|exact H].
    apply row_lit_js_set_mono. unfold lit in H. now rewrite Hrow in H.
  - apply tiles_le_refl.
Qed.

(** A loop whose body only grows the state only grows the state, also when
    it is cut short by a throw. *)
Lemma for_each_grows (body : Z -> Tiles -> completion Tiles) (xs : list Z) :
  (forall x t, tiles_le t (final (body x t))) ->
  forall t, tiles_le t (final (for_each xs body t)).
Proof.
  intros Hbody. induction xs as [|x xs IH]; intros t; cbn [for_each].
  - apply tiles_le_refl.
  - specialize (Hbody x t). destruct (body x t) as [t'|t']; cbn in *.
    + eapply tiles_le_trans; [exact Hbody | apply IH].
    + exact Hbody.
Qed.

Lemma reveal_grows (d : Dungeon) (newX newY : Z) (tiles : Tiles) :
  tiles_le tiles (final (Local.reveal d newX newY tiles)).
Proof.
  unfold Local.reveal. apply for_each_grows. intros dy t.
  apply for_each_grows. intros dx t'. cbn.
  destruct (Local.in_bounds d (newY + dy) (newX + dx)).
  - apply mark_grows.
  - apply tiles_le_refl.
Qed.

Lemma handleKeyPress_grows (gameState : option GameState)
    (dungeon : option Dungeon) (key : string) (y x : Z) :
  discovered gameState y x = true ->
  discovered (final (Local.handleKeyPress gameState dungeon key)) y x = true.
Proof.
  intros H. unfold Local.handleKeyPress.
  destruct gameState as [gs|]; [|discriminate].
  destruct dungeon as [d|]; [|exact H].
  destruct (Local.candidate gs d key) as [[newX newY]|]; [|exact H].
  destruct (grid_cell d newY newX) as [cell|]; [|exact H].
  destruct (bool_decide (cell = Some 0)); [|exact H].
  pose proof (reveal_grows d newX newY (discovered_tiles gs) y x H) as Hg.
  destruct (Local.reveal d newX newY (discovered_tiles gs)); exact Hg.
Qed.

Lemma play_app (dungeon : option Dungeon) (ps qs : list string)
    (gameState : option GameState) :
  Local.play dungeon (ps ++ qs) gameState =
  Local.play dungeon qs (Local.play dungeon ps gameState).
Proof.
  revert gameState. induction ps as [|p ps IH]; intros gameState; cbn.
  - reflexivity.
  - apply IH.
Qed.

(** ** Claims about the local client *)

(** A key whose candidate is a floor cell runs the success branch: once the
    loops have run to their end the new state is installed. *)
Lemma floor_move_runs (gs : GameState) (d : Dungeon) (key : string)
    (nx ny : Z) (newDiscovered : Tiles) :
  Local.candidate gs d key = Some (nx, ny) ->
  grid_cell d ny nx = Some (Some Floor) ->
  Local.reveal d nx ny (discovered_tiles gs) = Normal newDiscovered ->
  Local.handleKeyPress (Some gs) (Some d) key
    = Normal (Some (Local.moved gs nx ny newDiscovered)).
Proof.
  intros Hcand Hcell Hrun.
  unfold Local.handleKeyPress. rewrite Hcand, Hcell.
  rewrite bool_decide_eq_true_2 by reflexivity.
  now rewrite Hrun.
Qed.

(** C1.  A move that the local client accepts (the candidate cell of the key
    is a floor cell) ends normally in a state [{...prev, player_x, player_y,
    discovered_tiles, moves: prev.moves + 1}]: the player stands on the
    candidate cell, the other fields are those of before, and a tile of the
    new state's [discovered_tiles] is lit exactly when it was lit before or
    lies in the 3x3 block around the destination and inside [dungeon.width]
    x [dungeon.height].  The discovery map has a row for every [y] below
    [dungeon.height]. *)
Theorem successful_move_reveals_block (gs : GameState) (d : Dungeon)
    (key : string) (nx ny : Z) :
  Local.candidate gs d key = Some (nx, ny) ->
  grid_cell d ny nx = Some (Some Floor) ->
  height d <= Z.of_nat (length (discovered_tiles gs)) ->
  exists gs' : GameState,
    Local.handleKeyPress (Some gs) (Some d) key = Normal (Some gs') /\
    player_x gs' = nx /\ player_y gs' = ny /\
    moves gs' = js_add (moves gs) 1 /\
    same_stats gs gs' /\
    forall y x,
      lit (discovered_tiles gs') y x =
      lit (discovered_tiles gs) y x || revealed d nx ny y x.
Proof.
  intros Hcand Hcell Hrows.
  destruct (reveal_exact d nx ny (discovered_tiles gs) Hrows)
    as (tiles' & Hrun & Hlit).
  exists (Local.moved gs nx ny tiles').
  split; [now apply floor_move_runs|].
  cbn. repeat split. exact Hlit.
Qed.

Lemma successful_move_reveals_block_witness :
  exists gs' : GameState,
    Local.handleKeyPress (Some (session_at 2 2 (dark 5 5)))
      (Some (open_dungeon 5 5)) "d" = Normal (Some gs') /\
    player_x gs' = 3 /\ player_y gs' = 2 /\
    moves gs' = js_add (moves (session_at 2 2 (dark 5 5))) 1 /\
    same_stats (session_at 2 2 (dark 5 5)) gs' /\
    forall y x,
      lit (discovered_tiles gs') y x =
      lit (discovered_tiles (session_at 2 2 (dark 5 5))) y x
      || revealed (open_dungeon 5 5) 3 2 y x.
Proof.
  apply (successful_move_reveals_block (session_at 2 2 (dark 5 5))
           (open_dungeon 5 5) "d" 3 2).
  - reflexivity.
  - reflexivity.
  - cbn. lia.
Defined.

(** The fog-reveal scenario: from (2,2) in the dark 5x5 dungeon a step right
    ends on (3,2) with a discovery map in which the nine cells with x in
    2..4 and y in 1..3 are lit and no other. *)
Example fog_reveal_scenario :
  exists gs' : GameState,
    Local.handleKeyPress (Some (session_at 2 2 (dark 5 5)))
      (Some (open_dungeon 5 5)) "ArrowRight" = Normal (Some gs') /\
    player_x gs' = 3 /\ player_y gs' = 2 /\
    discovered_tiles gs'
    = [ [false; false; false; false; false];
        [false; false; true; true; true];
        [false; false; true; true; true];
        [false; false; true; true; true];
        [false; false; false; false; false] ].
Proof. eexists. split; [vm_compute; reflexivity|]. repeat split. Qed.

(** C2.  Along every sequence of key presses, a tile that is discovered after
    the presses [presses] is still discovered after one more press. *)
Theorem discovery_monotone (dungeon : option Dungeon) (presses : list string)
    (key : string) (gameState : option GameState) (y x : Z) :
  discovered (Local.play dungeon presses gameState) y x = true ->
  discovered (Local.play dungeon (presses ++ [key]) gameState) y x = true.
Proof.
  intros H. rewrite play_app. cbn [Local.play].
  now apply handleKeyPress_grows.
Qed.

Lemma discovery_monotone_witness :
  discovered (Local.play (Some (open_dungeon 5 5)) ["d"; "s"]
                (Some (session_at 2 2 (dark 5 5)))) 1 2 = true /\
  discovered (Local.play (Some (open_dungeon 5 5)) (["d"; "s"] ++ ["a"])
                (Some (session_at 2 2 (dark 5 5)))) 1 2 = true.
Proof.
  split.
  - vm_compute. reflexivity.
  - apply (discovery_monotone (Some (open_dungeon 5 5)) ["d"; "s"] "a"
             (Some (session_at 2 2 (dark 5 5))) 1 2).
    vm_compute. reflexivity.
Defined.

(** C4.  A key whose candidate cell is a wall leaves the whole game state as
    it was, so [player_x], [player_y] and [moves] keep their values. *)
Theorem wall_move_changes_nothing (gs : GameState) (d : Dungeon)
    (key : string) (nx ny : Z) :
  Local.candidate gs d key = Some (nx, ny) ->
  grid_cell d ny nx = Some (Some Wall) ->
  Local.handleKeyPress (Some gs) (Some d) key = Normal (Some gs).
Proof.
  intros Hcand Hcell. unfold Local.handleKeyPress. rewrite Hcand, Hcell.
  reflexivity.
Qed.

Lemma wall_move_changes_nothing_witness :
  Local.handleKeyPress (Some (session_at 1 0 (dark 3 1)))
    (Some walled_corridor) "d"
  = Normal (Some (session_at 1 0 (dark 3 1))).
Proof.
  apply (wall_move_changes_nothing (session_at 1 0 (dark 3 1))
           walled_corridor "d" 2 0); reflexivity.
Defined.

(** *** Presses against the edge of the grid *)

(** At an edge the clamp makes the candidate the cell the player stands on. *)
Lemma candidate_at_edge (gs : GameState) (d : Dungeon) :
  (player_x gs = 0 ->
   Local.candidate gs d "a" = Some (player_x gs, player_y gs)) /\
  (player_y gs = 0 ->
   Local.candidate gs d "w" = Some (player_x gs, player_y gs)) /\
  (player_x gs = width d - 1 ->
   Local.candidate gs d "d" = Some (player_x gs, player_y gs)) /\
  (player_y gs = height d - 1 ->
   Local.candidate gs d "s" = Some (player_x gs, player_y gs)).
Proof.
  unfold Local.candidate. cbn.
  repeat split; intros H; rewrite H; f_equal; f_equal; lia.
Qed.

(** The handler then treats the press like any move onto a floor cell: the
    position stays, the block around the player is lit again and [moves]
    is incremented.  Only a player standing on a cell other than floor sees
    no change. *)
Lemma edge_press_on_floor (gs : GameState) (d : Dungeon) (key : string) :
  Local.candidate gs d key = Some (player_x gs, player_y gs) ->
  grid_cell d (player_y gs) (player_x gs) = Some (Some Floor) ->
  height d <= Z.of_nat (length (discovered_tiles gs)) ->
  exists gs' : GameState,
    Local.handleKeyPress (Some gs) (Some d) key = Normal (Some gs') /\
    player_x gs' = player_x gs /\ player_y gs' = player_y gs /\
    moves gs' = js_add (moves gs) 1.
Proof.
  intros Hcand Hcell Hrows.
  destruct (reveal_exact d (player_x gs) (player_y gs) (discovered_tiles gs)
              Hrows) as (tiles' & Hrun & _).
  eexists. split; [apply (floor_move_runs _ _ _ _ _ _ Hcand Hcell Hrun)|].
  cbn. repeat split.
Qed.

Lemma edge_press_off_floor (gs : GameState) (d : Dungeon) (key : string)
    (cell : option Z) :
  Local.candidate gs d key = Some (player_x gs, player_y gs) ->
  grid_cell d (player_y gs) (player_x gs) = Some cell ->
  cell <> Some Floor ->
  Local.handleKeyPress (Some gs) (Some d) key = Normal (Some gs).
Proof.
  intros Hcand Hcell Hne. unfold Local.handleKeyPress. rewrite Hcand, Hcell.
  now rewrite bool_decide_eq_false_2.
Qed.

(** C3.  The player stands at (0,0) of a 2x2 floor dungeon with every tile
    discovered and presses "a": the position stays (0,0), yet the state is
    not the one before the press, for [moves] went from 0 to 1. *)
Theorem edge_press_counts_a_move :
  exists gs' : GameState,
    Local.handleKeyPress (Some (session_at 0 0 (lit_all 2 2)))
      (Some (open_dungeon 2 2)) "a" = Normal (Some gs') /\
    player_x gs' = 0 /\ player_y gs' = 0 /\
    discovered_tiles gs' = lit_all 2 2 /\
    moves (session_at 0 0 (lit_all 2 2)) = 0 /\ moves gs' = 1 /\
    gs' <> session_at 0 0 (lit_all 2 2).
Proof.
  eexists. split; [vm_compute; reflexivity|].
  cbn. repeat split. discriminate.
Qed.

(** ** Claims about the remote client *)

Import Remote.

Section RemoteHandlers.

Variable server : Server.
Variable c : Client.

(** C5.  With no game state, or with [in_combat] set, [movePlayer] returns
    at once: no request goes out, no state cell changes, nothing is thrown
    or logged. *)
Theorem movement_rejected_in_combat (direction : string) :
  (gameState c = None \/
   exists gs, gameState c = Some gs /\ in_combat gs = true) ->
  run (movePlayer (gameState c) direction) server c = mkOutcome c [] [] false.
Proof.
  intros [Hnone | (gs & Hsome & Hcombat)].
  - rewrite Hnone. reflexivity.
  - rewrite Hsome. unfold movePlayer. rewrite Hcombat. reflexivity.
Qed.

(** C6.  When the answer to a combat action says [combat_ended], the client
    fetches the game and installs the body of the answer, a game state or
    [null], in place of the old state. *)
Theorem combat_end_installs_fetched_state (gs : GameState)
    (fresh : option GameState) (action : string) (result : CombatResult.t) :
  gameState c = Some gs ->
  in_combat gs = true ->
  server [] (PostCombat (id gs) action) = Some result ->
  CombatResult.combat_ended result = true ->
  server [PostCombat (id gs) action] (GetGame (id gs)) = Some fresh ->
  let o := run (performCombatAction (gameState c) action) server c in
  gameState (client o) = fresh /\
  sent o = [PostCombat (id gs) action; GetGame (id gs)] /\
  escaped o = false.
Proof.
  intros Hgs Hcombat Hreply Hended Hfetch o. subst o.
  rewrite Hgs. unfold performCombatAction, run. rewrite Hcombat.
  cbn. rewrite Hreply. cbn. rewrite Hended. cbn. rewrite Hfetch. cbn.
  destruct (CombatResult.player_defeated result); cbn; repeat split.
Qed.

(** C7.  When the answer says the combat goes on, no fetch is made and the
    game state keeps every field but [player_hp], which takes the value of
    the answer. *)
Theorem combat_goes_on_patches_hp_only (gs : GameState) (action : string)
    (result : CombatResult.t) :
  gameState c = Some gs ->
  in_combat gs = true ->
  server [] (PostCombat (id gs) action) = Some result ->
  CombatResult.combat_ended result = false ->
  let o := run (performCombatAction (gameState c) action) server c in
  sent o = [PostCombat (id gs) action] /\
  exists gs' : GameState,
    gameState (client o) = Some gs' /\
    player_hp gs' = CombatResult.player_hp result /\
    id gs' = id gs /\
    player_x gs' = player_x gs /\ player_y gs' = player_y gs /\
    discovered_tiles gs' = discovered_tiles gs /\
    hero_class gs' = hero_class gs /\ hero_gender gs' = hero_gender gs /\
    max_hp gs' = max_hp gs /\ player_attack gs' = player_attack gs /\
    player_defense gs' = player_defense gs /\
    player_magic gs' = player_magic gs /\
    player_agility gs' = player_agility gs /\
    player_level gs' = player_level gs /\ moves gs' = moves gs /\
    inventory gs' = inventory gs /\
    collected_treasures gs' = collected_treasures gs /\
    opened_chests gs' = opened_chests gs /\
    collected_keys gs' = collected_keys gs /\
    in_combat gs' = in_combat gs.
Proof.
  intros Hgs Hcombat Hreply Hended o. subst o.
  rewrite Hgs. unfold performCombatAction, run. rewrite Hcombat.
  cbn. rewrite Hreply. cbn. rewrite Hended. cbn.
  destruct (CombatResult.player_defeated result); cbn; rewrite Hgs; cbn;
    (split; [reflexivity|]); eexists; (split; [reflexivity|]);
    cbn; repeat split; exact Hcombat.
Qed.


(** When the fetch after the end of a combat fails, the game state stays
    the old one, unpatched; the lines of the answer are in the log already
    and the failure goes to the console. *)
Lemma combat_end_fetch_fails (gs : GameState) (action : string)
    (result : CombatResult.t) :
  gameState c = Some gs ->
  in_combat gs = true ->
  server [] (PostCombat (id gs) action) = Some result ->
  CombatResult.combat_ended result = true ->
  server [PostCombat (id gs) action] (GetGame (id gs)) = None ->
  let o := run (performCombatAction (gameState c) action) server c in
  gameState (client o) = Some gs /\
  combatLog (client o)
    = (combatLog c ++ map Some (CombatResult.combat_log result))%list /\
  console o = ["Error in combat:"].
Proof.
  intros Hgs Hcombat Hreply Hended Hfetch o. subst o.
  rewrite Hgs. unfold performCombatAction, run. rewrite Hcombat.
  cbn. rewrite Hreply. cbn. rewrite Hended. cbn. rewrite Hfetch. cbn.
  rewrite Hgs. repeat split.
Qed.

(** Both round trips of a move go through, the answer announces a combat
    and names no enemy: the fetched state is installed, and the updater
    that reads the enemy's type throws when React runs it.  The catch
    block is not there any more and the console gets no line. *)
Lemma move_answer_without_enemy (gs : GameState) (fresh : option GameState)
    (direction : string) (result : MoveResult.t) :
  gameState c = Some gs ->
  in_combat gs = false ->
  server [] (PostMovePlayer (id gs) direction) = Some result ->
  MoveResult.success result = true ->
  MoveResult.in_combat result = true ->
  MoveResult.combat_enemy result = None ->
  server [PostMovePlayer (id gs) direction] (GetGame (id gs)) = Some fresh ->
  let o := run (movePlayer (gameState c) direction) server c in
  gameState (client o) = fresh /\ console o = [] /\ escaped o = true.
Proof.
  intros Hgs Hcombat Hpost Hsuccess Hfight Hnone Hfetch o. subst o.
  rewrite Hgs. unfold movePlayer, run. rewrite Hcombat. cbn.
  rewrite Hpost. cbn. rewrite Hsuccess. cbn. rewrite Hfetch. cbn.
  rewrite Hfight.
  destruct (truthy (MoveResult.message result)); cbn;
    unfold setCombatLogBy, combat_started; rewrite Hnone; cbn;
    repeat split.
Qed.

(** In combat no key makes the handler send a move: the movement keys end
    in the gate of [movePlayer], the others never call it. *)
Lemma key_press_in_combat_sends_no_move (gs : GameState) (key : string) :
  gameState c = Some gs ->
  in_combat gs = true ->
  forall game_id direction,
    ~ In (PostMovePlayer game_id direction)
         (sent (run (handleKeyPress c key) server c)).
Proof.
  intros Hgs Hcombat game_id direction.
  unfold handleKeyPress. rewrite Hgs.
  destruct (dungeon c) as [d|]; [|cbn; tauto].
  cbn zeta.
  repeat match goal with
    | |- context [if ?b || ?b' then _ else _] =>
        destruct (b || b');
        [unfold movePlayer; rewrite Hcombat; cbn; tauto|]
    end.
  destruct (String.eqb (toLowerCase key) "i"); [cbn; tauto|].
  rewrite Hcombat. cbn [when].
  assert (Hfight : forall action,
    ~ In (PostMovePlayer game_id direction)
         (sent (run (performCombatAction (Some gs) action) server c))).
  { intros action. unfold performCombatAction, run. rewrite Hcombat. cbn.
    destruct (server [] (PostCombat (id gs) action)) as [result|]; cbn;
      [|intuition discriminate].
    destruct (CombatResult.combat_ended result); cbn.
    - destruct (server [PostCombat (id gs) action] (GetGame (id gs))); cbn;
        [destruct (CombatResult.player_defeated result); cbn|];
        intuition discriminate.
    - destruct (CombatResult.player_defeated result); cbn;
        intuition discriminate. }
  destruct (String.eqb (toLowerCase key) "1"); [apply Hfight|].
  destruct (String.eqb (toLowerCase key) "2"); [apply Hfight|].
  cbn. tauto.
Qed.

End RemoteHandlers.

(** *** After a defeat *)

(** Every request a handler sends is appended to those sent before. *)
Lemma run_from_extends {A : Type} (m : Async A) (server : Server) :
  forall (c : Client) (requests : list Request) (lines : list string),
  exists more : list Request,
    sent (run_from m server c requests lines) = (requests ++ more)%list.
Proof.
  induction m as [a | | f k IH | f k IH | r k IH | msg k IH];
    intros c requests lines; cbn [run_from].
  - exists []. cbn. now rewrite app_nil_r.
  - exists []. cbn. now rewrite app_nil_r.
  - apply IH.
  - destruct (f c); [apply IH | cbn; apply IH].
  - destruct (IH (server requests r) c (requests ++ [r])%list lines)
      as [more Hmore].
    exists (r :: more). rewrite Hmore. now rewrite <- app_assoc.
  - apply IH.
Qed.

(** The only gate of [movePlayer] is [!gameState || gameState.in_combat]:
    it sends a request exactly when there is a game state with the flag
    off. *)
Lemma movePlayer_gate (gameState : option GameState) (direction : string)
    (server : Server) (c : Client) :
  sent (run (movePlayer gameState direction) server c) = [] <->
  (forall gs, gameState = Some gs -> in_combat gs = true).
Proof.
  unfold movePlayer, run. destruct gameState as [gs|]; cbn.
  2:{ split; [discriminate | reflexivity]. }
  destruct (in_combat gs) eqn:Hcombat; cbn.
  - split; [|reflexivity]. intros _ gs' [= <-]. exact Hcombat.
  - match goal with
    | |- sent (run_from ?m server c ?rs ?ls) = [] <-> _ =>
        destruct (run_from_extends m server c rs ls) as [more ->]
    end.
    split; [discriminate|].
    intros H. specialize (H gs eq_refl). congruence.
Qed.

(** The only gate of [performCombatAction] is the same flag, the other way
    round. *)
Lemma performCombatAction_gate (gameState : option GameState)
    (action : string) (server : Server) (c : Client) :
  sent (run (performCombatAction gameState action) server c) = [] <->
  (forall gs, gameState = Some gs -> in_combat gs = false).
Proof.
  unfold performCombatAction, run. destruct gameState as [gs|]; cbn.
  2:{ split; [discriminate | reflexivity]. }
  destruct (in_combat gs) eqn:Hcombat; cbn.
  - match goal with
    | |- sent (run_from ?m server c ?rs ?ls) = [] <-> _ =>
        destruct (run_from_extends m server c rs ls) as [more ->]
    end.
    split; [discriminate|].
    intros H. specialize (H gs eq_refl). congruence.
  - split; [|reflexivity]. intros _ gs' [= <-]. exact Hcombat.
Qed.

Section AfterDefeat.

Variable server : Server.
Variable c : Client.

(** C8, as the client has it.  A defeat is written to the combat log and
    nowhere else.  After an answer with [player_defeated] (the round trip
    having gone through) the state cells are those the same answer without
    [player_defeated] leaves, but for the game-over line at the end of the
    log; the requests sent and the console are the same.  No cell records
    the defeat, and the gates of the two actions are what they always are:
    a move is sent exactly when there is a game state with [in_combat]
    off, a combat action exactly when there is one with it on. *)
Theorem defeat_is_only_logged (gs : GameState) (action : string)
    (result : CombatResult.t) :
  gameState c = Some gs ->
  in_combat gs = true ->
  server [] (PostCombat (id gs) action) = Some result ->
  CombatResult.player_defeated result = true ->
  (CombatResult.combat_ended result = true ->
   is_Some (server [PostCombat (id gs) action] (GetGame (id gs)))) ->
  let o := run (performCombatAction (gameState c) action) server c in
  let o' := run (performCombatAction (gameState c) action)
              (without_defeat server) c in
  client o
  = setCombatLog (fun prev => (prev ++ [Some game_over])%list) (client o') /\
  sent o = sent o' /\ console o = console o' /\
  escaped o = false /\ escaped o' = false /\
  last (combatLog (client o)) = Some (Some game_over) /\
  forall (server' : Server) (c' : Client) (direction action' : string),
    (sent (run (movePlayer (gameState (client o)) direction) server' c') = []
     <-> forall gs', gameState (client o) = Some gs' -> in_combat gs' = true)
    /\
    (sent (run (performCombatAction (gameState (client o)) action')
             server' c') = []
     <-> forall gs', gameState (client o) = Some gs' -> in_combat gs' = false).
Proof.
  intros Hgs Hcombat Hreply Hdefeated Hfetch o o'.
  assert (Hgates :
    forall (server' : Server) (c' : Client) (direction action' : string),
      (sent (run (movePlayer (gameState (client o)) direction) server' c') = []
       <-> forall gs', gameState (client o) = Some gs' -> in_combat gs' = true)
      /\
      (sent (run (performCombatAction (gameState (client o)) action')
               server' c') = []
       <-> forall gs', gameState (client o) = Some gs' ->
                       in_combat gs' = false)).
  { intros server' c' direction action'.
    split; [apply movePlayer_gate | apply performCombatAction_gate]. }
  revert Hgates. subst o o'.
  rewrite Hgs. unfold performCombatAction, run, without_defeat.
  rewrite Hcombat. cbn. rewrite Hreply. cbn. rewrite Hdefeated.
  destruct (CombatResult.combat_ended result) eqn:Hended; cbn.
  - destruct (Hfetch eq_refl) as [fresh Hfresh]. rewrite Hfresh. cbn.
    intros Hgates. split_and!; try reflexivity; [apply last_snoc | exact Hgates].
  - rewrite Hgs. cbn.
    intros Hgates. split_and!; try reflexivity; [apply last_snoc | exact Hgates].
Qed.

(** When the fetch after a defeat that ends the combat is rejected, the
    catch block runs before the game-over line is appended: the defeat
    leaves no trace at all. *)
Lemma defeat_unreported_when_fetch_fails (gs : GameState) (action : string)
    (result : CombatResult.t) :
  gameState c = Some gs ->
  in_combat gs = true ->
  server [] (PostCombat (id gs) action) = Some result ->
  CombatResult.combat_ended result = true ->
  server [PostCombat (id gs) action] (GetGame (id gs)) = None ->
  run (performCombatAction (gameState c) action) server c
  = run (performCombatAction (gameState c) action) (without_defeat server) c.
Proof.
  intros Hgs Hcombat Hreply Hended Hfetch.
  rewrite Hgs. unfold performCombatAction, run, without_defeat.
  rewrite Hcombat. cbn. rewrite Hreply. cbn. rewrite Hended. cbn.
  rewrite Hfetch. reflexivity.
Qed.

End AfterDefeat.

Lemma defeat_is_only_logged_witness :
  let c := playing (session true 12) in
  let server := answers None None (Some beaten) in
  let o := run (performCombatAction (gameState c) "attack") server c in
  let o' := run (performCombatAction (gameState c) "attack")
              (without_defeat server) c in
  client o
  = setCombatLog (fun prev => (prev ++ [Some game_over])%list) (client o') /\
  sent o = sent o' /\ console o = console o' /\
  escaped o = false /\ escaped o' = false /\
  last (combatLog (client o)) = Some (Some game_over) /\
  forall (server' : Server) (c' : Client) (direction action' : string),
    (sent (run (movePlayer (gameState (client o)) direction) server' c') = []
     <-> forall gs', gameState (client o) = Some gs' -> in_combat gs' = true)
    /\
    (sent (run (performCombatAction (gameState (client o)) action')
             server' c') = []
     <-> forall gs', gameState (client o) = Some gs' -> in_combat gs' = false).
Proof.
  apply (defeat_is_only_logged (answers None None (Some beaten))
           (playing (session true 12)) (session true 12) "attack" beaten).
  - reflexivity.
  - reflexivity.
  - reflexivity.
  - reflexivity.
  - intros H. discriminate H.
Defined.

(** C8, as the claim has it, fails.  The player is told of the defeat while
    the combat goes on, presses "1" again, and the attack goes out; or the
    defeat ends the combat, the fetched state is out of combat, and the
    next "w" sends a move. *)
Lemma defeated_player_still_acts :
  CombatResult.player_defeated beaten = true /\
  CombatResult.player_defeated beaten_and_over = true /\
  (let c' := client (run (performCombatAction (Some (session true 12)) "attack")
                       (answers None None (Some beaten))
                       (playing (session true 12))) in
   sent (run (handleKeyPress c' "1") (answers None None (Some beaten)) c')
   = [PostCombat "g1" "attack"]) /\
  (let c' := client (run (performCombatAction (Some (session true 12)) "attack")
                       (answers None (Some (session false 0))
                          (Some beaten_and_over))
                       (playing (session true 12))) in
   sent (run (handleKeyPress c' "w")
           (answers None (Some (session false 0)) (Some beaten_and_over)) c')
   = [PostMovePlayer "g1" "up"]).
Proof. vm_compute. repeat split. Qed.

(** *** Witnesses for the handlers *)

Lemma movement_rejected_in_combat_witness :
  run (movePlayer (gameState (playing (session true 100))) "up")
    (answers None None None) (playing (session true 100))
  = mkOutcome (playing (session true 100)) [] [] false.
Proof.
  apply (movement_rejected_in_combat (answers None None None)
           (playing (session true 100)) "up").
  right. exists (session true 100). split; reflexivity.
Defined.

Lemma combat_end_installs_fetched_state_witness :
  let o := run (performCombatAction (gameState (playing (session true 100)))
                  "attack")
             (answers None (Some (session false 88)) (Some orc_slain))
             (playing (session true 100)) in
  gameState (client o) = Some (session false 88) /\
  sent o = [PostCombat (id (session true 100)) "attack";
            GetGame (id (session true 100))] /\
  escaped o = false.
Proof.
  apply (combat_end_installs_fetched_state
           (answers None (Some (session false 88)) (Some orc_slain))
           (playing (session true 100)) (session true 100)
           (Some (session false 88)) "attack" orc_slain); reflexivity.
Defined.

Lemma combat_goes_on_patches_hp_only_witness :
  let gs := session true 100 in
  let o := run (performCombatAction (gameState (playing gs)) "attack")
             (answers None None (Some struck)) (playing gs) in
  sent o = [PostCombat (id gs) "attack"] /\
  exists gs' : GameState,
    gameState (client o) = Some gs' /\
    player_hp gs' = CombatResult.player_hp struck /\
    id gs' = id gs /\
    player_x gs' = player_x gs /\ player_y gs' = player_y gs /\
    discovered_tiles gs' = discovered_tiles gs /\
    hero_class gs' = hero_class gs /\ hero_gender gs' = hero_gender gs /\
    max_hp gs' = max_hp gs /\ player_attack gs' = player_attack gs /\
    player_defense gs' = player_defense gs /\
    player_magic gs' = player_magic gs /\
    player_agility gs' = player_agility gs /\
    player_level gs' = player_level gs /\ moves gs' = moves gs /\
    inventory gs' = inventory gs /\
    collected_treasures gs' = collected_treasures gs /\
    opened_chests gs' = opened_chests gs /\
    collected_keys gs' = collected_keys gs /\
    in_combat gs' = in_combat gs.
Proof.
  intros gs.
  apply (combat_goes_on_patches_hp_only (answers None None (Some struck))
           (playing gs) gs "attack" struck); reflexivity.
Defined.



(** *** Consumed entities and the glyph of a cell *)

Lemma find_filter {A : Type} (here keep : A -> bool) (l : list A) :
  List.find (fun a => here a && keep a) (List.filter keep l) =
  List.find (fun a => here a && keep a) l.
Proof.
  induction l as [|a l IH]; cbn; [reflexivity|].
  destruct (keep a) eqn:Hkeep; cbn.
  - rewrite Hkeep, IH. reflexivity.
  - rewrite andb_false_r. exact IH.
Qed.

Lemma find_treasure_without (d : Dungeon) (gs : GameState) (x y : Z) :
  find_treasure (without_consumed d gs) gs x y = find_treasure d gs x y.
Proof.
  unfold find_treasure, without_consumed. cbn [treasures].
  apply (find_filter (fun t => (t_x t =? x) && (t_y t =? y))).
Qed.

Lemma find_chest_without (d : Dungeon) (gs : GameState) (x y : Z) :
  find_chest (without_consumed d gs) gs x y = find_chest d gs x y.
Proof.
  unfold find_chest, without_consumed. cbn [chests].
  apply (find_filter (fun c => (c_x c =? x) && (c_y c =? y))).
Qed.

Lemma find_key_without (d : Dungeon) (gs : GameState) (x y : Z) :
  find_key (without_consumed d gs) gs x y = find_key d gs x y.
Proof.
  unfold find_key, without_consumed. cbn [keys].
  apply (find_filter (fun k => (k_x k =? x) && (k_y k =? y))).
Qed.

Lemma renderCell_without (hs : gmap string (gmap string Hero)) (d : Dungeon)
    (gs : GameState) (y x cell : Z) :
  renderCell hs (without_consumed d gs) gs y x cell = renderCell hs d gs y x cell.
Proof.
  unfold renderCell.
  rewrite find_treasure_without, find_chest_without, find_key_without.
  reflexivity.
Qed.

(** What each [find] returns stands on the cell and is not consumed. *)
Lemma find_treasure_Some (d : Dungeon) (gs : GameState) (x y : Z) (t : Treasure) :
  find_treasure d gs x y = Some t ->
  In t (treasures d) /\ t_x t = x /\ t_y t = y /\
  includes (collected_treasures gs) (t_id t) = false.
Proof.
  intros H. apply find_some in H as [Hin Hp].
  rewrite !andb_true_iff, !Z.eqb_eq, negb_true_iff in Hp. tauto.
Qed.

Lemma find_chest_Some (d : Dungeon) (gs : GameState) (x y : Z) (ch : ChestEntity) :
  find_chest d gs x y = Some ch ->
  In ch (chests d) /\ c_x ch = x /\ c_y ch = y /\
  includes (opened_chests gs) (c_id ch) = false.
Proof.
  intros H. apply find_some in H as [Hin Hp].
  rewrite !andb_true_iff, !Z.eqb_eq, negb_true_iff in Hp. tauto.
Qed.

Lemma find_key_Some (d : Dungeon) (gs : GameState) (x y : Z) (k : KeyEntity) :
  find_key d gs x y = Some k ->
  In k (keys d) /\ k_x k = x /\ k_y k = y /\
  includes (collected_keys gs) (k_id k) = false.
Proof.
  intros H. apply find_some in H as [Hin Hp].
  rewrite !andb_true_iff, !Z.eqb_eq, negb_true_iff in Hp. tauto.
Qed.

Lemma find_enemy_Some (d : Dungeon) (x y : Z) (e : Enemy) :
  find_enemy d x y = Some e ->
  In e (enemies d) /\ e_x e = x /\ e_y e = y /\ e_alive e = true.
Proof.
  intros H. apply find_some in H as [Hin Hp].
  rewrite !andb_true_iff, !Z.eqb_eq in Hp. tauto.
Qed.

Lemma find_trap_Some (d : Dungeon) (x y : Z) (t : Trap) :
  find_trap d x y = Some t -> In t (traps d) /\ tr_x t = x /\ tr_y t = y.
Proof.
  intros H. apply find_some in H as [Hin Hp].
  rewrite !andb_true_iff, !Z.eqb_eq in Hp. tauto.
Qed.

Lemma find_door_Some (d : Dungeon) (x y : Z) (dr : DoorEntity) :
  find_door d x y = Some dr -> In dr (doors d) /\ d_x dr = x /\ d_y dr = y.
Proof.
  intros H. apply find_some in H as [Hin Hp].
  rewrite !andb_true_iff, !Z.eqb_eq in Hp. tauto.
Qed.

Lemma renderCell_glyph_from (hs : gmap string (gmap string Hero))
    (d : Dungeon) (gs : GameState) (y x cell : Z) (emoji : string) :
  renderCell hs d gs y x cell = Some emoji -> glyph_from hs d gs x y emoji.
Proof.
  unfold renderCell. destruct (js_get (discovered_tiles gs) y) as [row|];
    [|discriminate].
  cbn. intros [= <-].
  pose proof (find_treasure_Some d gs x y) as Ht.
  pose proof (find_chest_Some d gs x y) as Hc.
  pose proof (find_key_Some d gs x y) as Hk.
  pose proof (find_enemy_Some d x y) as He.
  pose proof (find_trap_Some d x y) as Htr.
  pose proof (find_door_Some d x y) as Hd.
  destruct (find_treasure d gs x y) as [t|];
    [destruct (Ht t eq_refl) as (? & ? & ? & ?)|]; clear Ht;
  (destruct (find_chest d gs x y) as [ch|];
    [destruct (Hc ch eq_refl) as (? & ? & ? & ?)|]; clear Hc);
  (destruct (find_key d gs x y) as [k|];
    [destruct (Hk k eq_refl) as (? & ? & ? & ?)|]; clear Hk);
  (destruct (find_enemy d x y) as [e|];
    [destruct (He e eq_refl) as (? & ? & ? & ?)|]; clear He);
  (destruct (find_trap d x y) as [tr|];
    [destruct (Htr tr eq_refl) as (? & ? & ?)|]; clear Htr);
  (destruct (find_door d x y) as [dr|];
    [destruct (Hd dr eq_refl) as (? & ? & ?)|]; clear Hd);
  unfold resolve;
  destruct (row_lit row x);
  (destruct ((player_x gs =? x) && (player_y gs =? y)) eqn:Hp;
    [apply andb_true_iff in Hp as [Hpx Hpy];
     apply Z.eqb_eq in Hpx; apply Z.eqb_eq in Hpy|]);
  destruct (cell =? 0), (cell =? 2), (cell =? 3), (cell =? 1); cbn;
  solve [ apply from_nothing
        | apply from_hero; assumption
        | eapply from_key; eassumption
        | eapply from_treasure; eassumption
        | eapply from_enemy; eassumption
        | eapply from_trap; eassumption
        | eapply from_door; eassumption
        | eapply from_chest; eassumption ].
Qed.

(** The glyphs of the kinds of entity are pairwise different strings. *)
Ltac glyphs_differ :=
  unfold not; intros;
  match goal with H : _ = _ |- False => revert H end;
  unfold treasure_emoji, enemy_emoji, key_emoji, trap_emoji, door_emoji,
    chest_emoji;
  repeat match goal with
    | |- context [if ?b then _ else _] => destruct b
    end;
  discriminate.

Lemma treasure_glyph_apart (t : Treasure) :
  treasure_emoji t <> "" /\
  (forall k, treasure_emoji t <> key_emoji k) /\
  (forall e, treasure_emoji t <> enemy_emoji e) /\
  treasure_emoji t <> trap_emoji /\
  (forall dr, treasure_emoji t <> door_emoji dr) /\
  (forall ch, treasure_emoji t <> chest_emoji ch).
Proof. repeat apply conj; glyphs_differ. Qed.

Lemma chest_glyph_apart (ch : ChestEntity) :
  chest_emoji ch <> "" /\
  (forall k, chest_emoji ch <> key_emoji k) /\
  (forall t, chest_emoji ch <> treasure_emoji t) /\
  (forall e, chest_emoji ch <> enemy_emoji e) /\
  chest_emoji ch <> trap_emoji /\
  (forall dr, chest_emoji ch <> door_emoji dr).
Proof. repeat apply conj; glyphs_differ. Qed.

Lemma key_glyph_apart (k : KeyEntity) :
  key_emoji k <> "" /\
  (forall t, key_emoji k <> treasure_emoji t) /\
  (forall e, key_emoji k <> enemy_emoji e) /\
  key_emoji k <> trap_emoji /\
  (forall dr, key_emoji k <> door_emoji dr) /\
  (forall ch, key_emoji k <> chest_emoji ch).
Proof. repeat apply conj; glyphs_differ. Qed.

Section ConsumedEntities.

Variable hs : gmap string (gmap string Hero).
Variable d : Dungeon.
Variable gs : GameState.
Variables x y cell : Z.

Hypothesis player_elsewhere : ~ (player_x gs = x /\ player_y gs = y).

Lemma no_treasure_glyph (t : Treasure) :
  (forall t', In t' (treasures d) -> t_x t' = x -> t_y t' = y ->
              includes (collected_treasures gs) (t_id t') = true) ->
  renderCell hs d gs y x cell <> Some (treasure_emoji t).
Proof.
  intros Hall Hshow. apply renderCell_glyph_from in Hshow.
  destruct (treasure_glyph_apart t) as (H0 & Hk & He & Htr & Hd & Hc).
  inversion Hshow as
    [ Heq | Hx Hy Heq | k ? ? ? ? Heq | t' Hin Htx Hty Hfree Heq
    | e ? ? ? ? Heq | tr ? ? ? Heq | dr ? ? ? Heq | ch ? ? ? ? Heq ].
  - now apply H0.
  - now apply player_elsewhere.
  - now apply (Hk k).
  - rewrite (Hall t' Hin Htx Hty) in Hfree. discriminate.
  - now apply (He e).
  - now apply Htr.
  - now apply (Hd dr).
  - now apply (Hc ch).
Qed.

Lemma no_chest_glyph (ch : ChestEntity) :
  (forall ch', In ch' (chests d) -> c_x ch' = x -> c_y ch' = y ->
               includes (opened_chests gs) (c_id ch') = true) ->
  renderCell hs d gs y x cell <> Some (chest_emoji ch).
Proof.
  intros Hall Hshow. apply renderCell_glyph_from in Hshow.
  destruct (chest_glyph_apart ch) as (H0 & Hk & Ht & He & Htr & Hd).
  inversion Hshow as
    [ Heq | Hx Hy Heq | k ? ? ? ? Heq | t ? ? ? ? Heq
    | e ? ? ? ? Heq | tr ? ? ? Heq | dr ? ? ? Heq
    | ch' Hin Hcx Hcy Hfree Heq ].
  - now apply H0.
  - now apply player_elsewhere.
  - now apply (Hk k).
  - now apply (Ht t).
  - now apply (He e).
  - now apply Htr.
  - now apply (Hd dr).
  - rewrite (Hall ch' Hin Hcx Hcy) in Hfree. discriminate.
Qed.

Lemma no_key_glyph (k : KeyEntity) :
  (forall k', In k' (keys d) -> k_x k' = x -> k_y k' = y ->
              includes (collected_keys gs) (k_id k') = true) ->
  renderCell hs d gs y x cell <> Some (key_emoji k).
Proof.
  intros Hall Hshow. apply renderCell_glyph_from in Hshow.
  destruct (key_glyph_apart k) as (H0 & Ht & He & Htr & Hd & Hc).
  inversion Hshow as
    [ Heq | Hx Hy Heq | k' Hin Hkx Hky Hfree Heq | t ? ? ? ? Heq
    | e ? ? ? ? Heq | tr ? ? ? Heq | dr ? ? ? Heq | ch ? ? ? ? Heq ].
  - now apply H0.
  - now apply player_elsewhere.
  - rewrite (Hall k' Hin Hkx Hky) in Hfree. discriminate.
  - now apply (Ht t).
  - now apply (He e).
  - now apply Htr.
  - now apply (Hd dr).
  - now apply (Hc ch).
Qed.

End ConsumedEntities.

(** C10.  At every cell the glyph is the one the dungeon would show with the
    collected treasures, the opened chests and the collected keys struck
    from its lists; the glyph shown is empty, the hero's, or that of an
    entity on the cell that is not in the collected or opened list of its
    kind; and away from the player, a cell whose treasures are all collected
    shows no treasure glyph, a cell whose chests are all opened no chest
    glyph, and a cell whose keys are all collected no key glyph, discovered
    or not. *)
Theorem consumed_entities_never_shown (hs : gmap string (gmap string Hero))
    (d : Dungeon) (gs : GameState) (y x cell : Z) :
  renderCell hs d gs y x cell
    = renderCell hs (without_consumed d gs) gs y x cell /\
  (forall emoji : string,
     renderCell hs d gs y x cell = Some emoji -> glyph_from hs d gs x y emoji) /\
  (~ (player_x gs = x /\ player_y gs = y) ->
   (forall t : Treasure,
      (forall t', In t' (treasures d) -> t_x t' = x -> t_y t' = y ->
                  includes (collected_treasures gs) (t_id t') = true) ->
      renderCell hs d gs y x cell <> Some (treasure_emoji t)) /\
   (forall ch : ChestEntity,
      (forall ch', In ch' (chests d) -> c_x ch' = x -> c_y ch' = y ->
                   includes (opened_chests gs) (c_id ch') = true) ->
      renderCell hs d gs y x cell <> Some (chest_emoji ch)) /\
   (forall k : KeyEntity,
      (forall k', In k' (keys d) -> k_x k' = x -> k_y k' = y ->
                  includes (collected_keys gs) (k_id k') = true) ->
      renderCell hs d gs y x cell <> Some (key_emoji k))).
Proof.
  split; [symmetry; apply renderCell_without|].
  split; [intros emoji; apply renderCell_glyph_from|].
  intros Helsewhere. repeat split.
  - intros t. now apply no_treasure_glyph.
  - intros ch. now apply no_chest_glyph.
  - intros k. now apply no_key_glyph.
Qed.

Lemma consumed_entities_never_shown_witness :
  renderCell ∅ stocked_dungeon looted 1 1 Chest <> Some (treasure_emoji gold) /\
  renderCell ∅ stocked_dungeon looted 1 1 Chest <> Some (chest_emoji strongbox) /\
  renderCell ∅ stocked_dungeon looted 1 1 Chest <> Some (key_emoji silver_key).
Proof.
  destruct (consumed_entities_never_shown ∅ stocked_dungeon looted 1 1 Chest)
    as (_ & _ & Hrest).
  destruct Hrest as (Ht & Hc & Hk).
  { intros [Hx _]. discriminate Hx. }
  split; [|split].
  - apply Ht. intros t' [<-|[]] _ _. reflexivity.
  - apply Hc. intros ch' [<-|[]] _ _. reflexivity.
  - apply Hk. intros k' [<-|[]] _ _. reflexivity.
Defined.

(** On the stocked cell the key comes first; once key, gold and chest are
    taken the discovered cell shows nothing. *)
Example stocked_cell_glyphs :
  renderCell ∅ stocked_dungeon untouched 1 1 Chest = Some (key_emoji silver_key) /\
  renderCell ∅ stocked_dungeon looted 1 1 Chest = Some "" /\
  renderDungeon (mkClient (Some looted) (Some stocked_dungeon) ∅ [] false "game")
    = RenderGrid [[hero_glyph ∅ looted; ""; ""]; [""; ""; ""]; [""; ""; ""]].
Proof. vm_compute. repeat split. Qed.

(** * More of the two clients *)

(** ** Invariants of a local session *)

Lemma same_stats_refl (gs : GameState) : same_stats gs gs.
Proof. unfold same_stats. repeat split. Qed.

Lemma same_stats_trans (g1 g2 g3 : GameState) :
  same_stats g1 g2 -> same_stats g2 g3 -> same_stats g1 g3.
Proof.
  unfold same_stats. intros H12 H23.
  repeat match goal with H : _ /\ _ |- _ => destruct H end.
  repeat split; congruence.
Qed.

(** What a key press can do to a game state: nothing to position and move
    count (the discovery map alone may have grown, when the loops were cut
    short), or a move onto the candidate, which is then a floor cell. *)
Lemma handleKeyPress_outcome (gs : GameState) (d : Dungeon) (key : string) :
  exists gs' : GameState,
    final (Local.handleKeyPress (Some gs) (Some d) key) = Some gs' /\
    same_stats gs gs' /\
    ((player_x gs' = player_x gs /\ player_y gs' = player_y gs /\
      moves gs' = moves gs) \/
     (Local.candidate gs d key = Some (player_x gs', player_y gs') /\
      grid_cell d (player_y gs') (player_x gs') = Some (Some Floor) /\
      moves gs' = js_add (moves gs) 1)).
Proof.
  unfold Local.handleKeyPress.
  destruct (Local.candidate gs d key) as [[nx ny]|] eqn:Hcand.
  2:{ exists gs. split; [reflexivity|]. split; [apply same_stats_refl|].
      left. repeat split. }
  destruct (grid_cell d ny nx) as [cell|] eqn:Hcell.
  2:{ exists gs. split; [reflexivity|]. split; [apply same_stats_refl|].
      left. repeat split. }
  destruct (bool_decide (cell = Some 0)) eqn:Hfloor.
  2:{ exists gs. split; [reflexivity|]. split; [apply same_stats_refl|].
      left. repeat split. }
  apply bool_decide_eq_true_1 in Hfloor. subst cell.
  destruct (Local.reveal d nx ny (discovered_tiles gs)) as [tiles|tiles];
    cbn [final].
  - eexists. split; [reflexivity|].
    split; [unfold same_stats; cbn; repeat split|].
    right. cbn. repeat split. exact Hcell.
  - eexists. split; [reflexivity|].
    split; [unfold same_stats; cbn; repeat split|].
    left. cbn. repeat split.
Qed.

Lemma play_Some (d : Dungeon) (presses : list string) : forall gs : GameState,
  exists gs' : GameState, Local.play (Some d) presses (Some gs) = Some gs'.
Proof.
  induction presses as [|key rest IH]; intros gs; cbn [Local.play].
  - exists gs. reflexivity.
  - destruct (handleKeyPress_outcome gs d key) as (gs1 & H1 & _).
    rewrite H1. apply IH.
Qed.

(** An invariant of a single press is an invariant of a session. *)
Lemma play_invariant (d : Dungeon) (P : GameState -> Prop) :
  (forall gs key gs',
     P gs -> final (Local.handleKeyPress (Some gs) (Some d) key) = Some gs' ->
     P gs') ->
  forall presses gs gs',
    P gs -> Local.play (Some d) presses (Some gs) = Some gs' -> P gs'.
Proof.
  intros Hstep. induction presses as [|key rest IH]; intros gs gs' HP Hplay;
    cbn [Local.play] in Hplay.
  - injection Hplay as <-. exact HP.
  - destruct (handleKeyPress_outcome gs d key) as (gs1 & H1 & _).
    rewrite H1 in Hplay. apply (IH gs1 gs'); [|exact Hplay].
    apply (Hstep gs key gs1 HP H1).
Qed.

(** X1.  The player stays on floor.  Whatever keys are pressed, and whether or
    not a handler throws on the way, a player who stands on a floor cell
    stands on a floor cell afterwards. *)
Theorem player_stays_on_floor (d : Dungeon) (presses : list string)
    (gs : GameState) :
  on_floor d gs ->
  exists gs' : GameState,
    Local.play (Some d) presses (Some gs) = Some gs' /\ on_floor d gs'.
Proof.
  intros Hfloor. destruct (play_Some d presses gs) as [gs' Hplay].
  exists gs'. split; [exact Hplay|].
  apply (play_invariant d (on_floor d)) with (presses := presses) (gs := gs);
    [|exact Hfloor|exact Hplay].
  clear. intros gs key gs' Hfloor Hfinal.
  destruct (handleKeyPress_outcome gs d key) as (gs1 & H1 & _ & Hcases).
  rewrite H1 in Hfinal. injection Hfinal as <-.
  destruct Hcases as [(Hx & Hy & _) | (_ & Hcell & _)].
  - unfold on_floor in *. now rewrite Hx, Hy.
  - exact Hcell.
Qed.

Lemma player_stays_on_floor_witness :
  exists gs' : GameState,
    Local.play (Some walled_corridor) ["d"; "d"; "a"; "a"; "w"]
      (Some (session_at 1 0 (dark 3 1))) = Some gs' /\
    on_floor walled_corridor gs'.
Proof.
  apply (player_stays_on_floor walled_corridor ["d"; "d"; "a"; "a"; "w"]
           (session_at 1 0 (dark 3 1))).
  reflexivity.
Defined.

(** X2.  Key presses touch four fields only.  After any session the game state
    has the id, hero, hit points, attack, defense, magic, agility, level,
    inventory, collected lists and combat flag it started with. *)
Theorem key_presses_keep_stats (d : Dungeon) (presses : list string)
    (gs : GameState) :
  exists gs' : GameState,
    Local.play (Some d) presses (Some gs) = Some gs' /\ same_stats gs gs'.
Proof.
  destruct (play_Some d presses gs) as [gs' Hplay].
  exists gs'. split; [exact Hplay|].
  apply (play_invariant d (same_stats gs)) with (presses := presses) (gs := gs);
    [|apply same_stats_refl|exact Hplay].
  clear. intros g key g' Hsame Hfinal.
  destruct (handleKeyPress_outcome g d key) as (g1 & H1 & Hstats & _).
  rewrite H1 in Hfinal. injection Hfinal as <-.
  now apply same_stats_trans with g.
Qed.

(** Sums of integers up to 2^53 in magnitude are exact. *)
Lemma js_add_exact (a b : Z) :
  - 2 ^ 53 <= a + b <= 2 ^ 53 -> js_add a b = a + b.
Proof.
  intros H. unfold js_add, round_double.
  destruct (Z.leb_spec (Z.abs (a + b)) (2 ^ 53)); [reflexivity | lia].
Qed.

(** X3.  The move counter never goes down and rises by at most one per press,
    as long as it stays within 2^53, where every integer is a double. *)
Theorem moves_bounded_by_presses (d : Dungeon) (presses : list string) :
  forall gs : GameState,
  - 2 ^ 53 <= moves gs ->
  moves gs + Z.of_nat (length presses) <= 2 ^ 53 ->
  exists gs' : GameState,
    Local.play (Some d) presses (Some gs) = Some gs' /\
    moves gs <= moves gs' <= moves gs + Z.of_nat (length presses).
Proof.
  induction presses as [|key rest IH]; intros gs Hlow Hhigh;
    cbn [Local.play].
  - exists gs. split; [reflexivity|]. cbn. lia.
  - cbn [length] in *. rewrite Nat2Z.inj_succ in *.
    destruct (handleKeyPress_outcome gs d key) as (gs1 & H1 & _ & Hcases).
    rewrite H1.
    assert (Hm : moves gs1 = moves gs \/ moves gs1 = moves gs + 1).
    { destruct Hcases as [(_ & _ & Hm) | (_ & _ & Hm)]; [now left|].
      right. rewrite Hm. apply js_add_exact. lia. }
    destruct (IH gs1) as (gs' & Hplay & Hbound); [lia | lia |].
    exists gs'. split; [exact Hplay|]. lia.
Qed.

Lemma moves_bounded_by_presses_witness :
  exists gs' : GameState,
    Local.play (Some (open_dungeon 5 5)) ["d"; "d"; "d"; "s"]
      (Some (session_at 2 2 (dark 5 5))) = Some gs' /\
    moves (session_at 2 2 (dark 5 5)) <= moves gs'
    <= moves (session_at 2 2 (dark 5 5))
       + Z.of_nat (length ["d"; "d"; "d"; "s"]).
Proof.
  apply (moves_bounded_by_presses (open_dungeon 5 5) ["d"; "d"; "d"; "s"]
           (session_at 2 2 (dark 5 5))).
  - cbn. lia.
  - cbn. lia.
Defined.

(** Beyond 2^53 the counter is a double like any other: from 2^53 + 2 a move
    takes it to 2^53 + 4, and at 2^53 it stays where it is. *)
Example counter_beyond_2_53 :
  moves <$> final (Local.handleKeyPress
                     (Some (long_session 9007199254740994))
                     (Some (open_dungeon 2 2)) "d")
  = Some 9007199254740996 /\
  moves <$> final (Local.handleKeyPress
                     (Some (long_session 9007199254740992))
                     (Some (open_dungeon 2 2)) "d")
  = Some 9007199254740992.
Proof. vm_compute. split; reflexivity. Qed.

(** From inside the grid every candidate is inside the grid, one step away
    at most. *)
Lemma candidate_in_grid (gs : GameState) (d : Dungeon) (key : string)
    (nx ny : Z) :
  in_grid d gs ->
  Local.candidate gs d key = Some (nx, ny) ->
  (0 <= nx < width d /\ 0 <= ny < height d) /\
  Z.abs (nx - player_x gs) + Z.abs (ny - player_y gs) <= 1.
Proof.
  intros [Hx Hy]. unfold Local.candidate.
  repeat match goal with
    | |- context [if ?b then _ else _] => destruct b
    end; intros [= <- <-] || discriminate; lia.
Qed.

Lemma reveal_keeps_rows (d : Dungeon) (nx ny : Z) (tiles : Tiles) :
  height d <= Z.of_nat (length tiles) ->
  exists tiles' : Tiles,
    Local.reveal d nx ny tiles = Normal tiles' /\
    length tiles' = length tiles /\
    forall y x, lit tiles' y x = lit tiles y x || revealed d nx ny y x.
Proof.
  intros Hrows.
  destruct (outer_loop d nx ny [-1; 0; 1] [-1; 0; 1] tiles Hrows)
    as (tiles' & Hrun & Hlen & Hlit).
  exists tiles'. split; [exact Hrun|]. split; [exact Hlen|].
  intros y x. rewrite Hlit. now rewrite block_hits_revealed.
Qed.

Lemma well_formed_press (d : Dungeon) (gs : GameState) (key : string) :
  well_formed d gs ->
  exists gs' : GameState,
    Local.handleKeyPress (Some gs) (Some d) key = Normal (Some gs') /\
    well_formed d gs' /\
    (surroundings_lit d gs -> surroundings_lit d gs').
Proof.
  intros Hwf. pose proof Hwf as (Hin & Hgrid & Hrows).
  unfold Local.handleKeyPress.
  destruct (Local.candidate gs d key) as [[nx ny]|] eqn:Hcand.
  2:{ exists gs. split; [reflexivity|]. split; [exact Hwf | auto]. }
  destruct (candidate_in_grid gs d key nx ny Hin Hcand) as [[Hnx Hny] _].
  unfold grid_cell.
  destruct (js_get_is_Some (grid d) ny) as [row ->]; [lia|].
  destruct (bool_decide (Some (js_get row nx) = Some (Some 0)))
    eqn:Hfloor.
  - replace (bool_decide (js_get row nx = Some 0)) with true.
    2:{ symmetry. apply bool_decide_eq_true_1 in Hfloor.
        apply bool_decide_eq_true_2. congruence. }
    destruct (reveal_keeps_rows d nx ny (discovered_tiles gs) Hrows)
      as (tiles' & -> & Hlen & Hlit).
    eexists. split; [reflexivity|]. split.
    + unfold well_formed, in_grid. cbn. rewrite Hlen. auto.
    + intros _ y x Hrev. cbn in *. rewrite Hlit, Hrev. apply orb_true_r.
  - replace (bool_decide (js_get row nx = Some 0)) with false.
    2:{ symmetry. apply bool_decide_eq_false_1 in Hfloor.
        apply bool_decide_eq_false_2. congruence. }
    exists gs. split; [reflexivity|]. split; [exact Hwf | auto].
Qed.

(** X4.  A well-formed session never throws.  If the player is inside the grid
    and the grid and the discovery map have their [dungeon.height] rows,
    every key press completes normally and leaves the session so. *)
Theorem well_formed_session_never_throws (d : Dungeon)
    (presses : list string) : forall gs : GameState,
  well_formed d gs ->
  all_normal (Some d) presses (Some gs) = true /\
  exists gs' : GameState,
    Local.play (Some d) presses (Some gs) = Some gs' /\ well_formed d gs'.
Proof.
  induction presses as [|key rest IH]; intros gs Hwf;
    cbn [all_normal Local.play].
  - split; [reflexivity|]. exists gs. split; [reflexivity | exact Hwf].
  - destruct (well_formed_press d gs key Hwf) as (gs1 & -> & Hwf1 & _).
    cbn [final]. apply IH, Hwf1.
Qed.

Lemma well_formed_session_never_throws_witness :
  all_normal (Some (open_dungeon 5 5)) ["w"; "w"; "w"; "a"; "a"; "a"; "s"]
    (Some (session_at 2 2 (dark 5 5))) = true /\
  exists gs' : GameState,
    Local.play (Some (open_dungeon 5 5)) ["w"; "w"; "w"; "a"; "a"; "a"; "s"]
      (Some (session_at 2 2 (dark 5 5))) = Some gs' /\
    well_formed (open_dungeon 5 5) gs'.
Proof.
  apply (well_formed_session_never_throws (open_dungeon 5 5)
           ["w"; "w"; "w"; "a"; "a"; "a"; "s"] (session_at 2 2 (dark 5 5))).
  unfold well_formed, in_grid. cbn. lia.
Defined.



(** X6.  One press moves the player one step at most.  From inside the grid the
    position after a key press is inside the grid and differs from the one
    before by at most one cell along one axis. *)
Theorem press_moves_one_step (d : Dungeon) (gs : GameState) (key : string) :
  in_grid d gs ->
  exists gs' : GameState,
    final (Local.handleKeyPress (Some gs) (Some d) key) = Some gs' /\
    in_grid d gs' /\
    Z.abs (player_x gs' - player_x gs) + Z.abs (player_y gs' - player_y gs) <= 1.
Proof.
  intros Hin.
  destruct (handleKeyPress_outcome gs d key) as (gs' & Hfinal & _ & Hcases).
  exists gs'. split; [exact Hfinal|].
  destruct Hcases as [(Hx & Hy & _) | (Hcand & _ & _)].
  - unfold in_grid in *. rewrite Hx, Hy. split; [exact Hin | lia].
  - destruct (candidate_in_grid gs d key _ _ Hin Hcand) as [Hgrid Hstep].
    split; [exact Hgrid | exact Hstep].
Qed.

Lemma press_moves_one_step_witness :
  exists gs' : GameState,
    final (Local.handleKeyPress (Some (session_at 4 4 (dark 5 5)))
             (Some (open_dungeon 5 5)) "ArrowDown") = Some gs' /\
    in_grid (open_dungeon 5 5) gs' /\
    Z.abs (player_x gs' - player_x (session_at 4 4 (dark 5 5))) +
      Z.abs (player_y gs' - player_y (session_at 4 4 (dark 5 5))) <= 1.
Proof.
  apply (press_moves_one_step (open_dungeon 5 5) (session_at 4 4 (dark 5 5))
           "ArrowDown").
  unfold in_grid. cbn. lia.
Defined.

(** *** Keys are read without regard to case *)

Lemma lower_ascii_idempotent (c : ascii) :
  lower_ascii (lower_ascii c) = lower_ascii c.
Proof.
  destruct c as [b0 b1 b2 b3 b4 b5 b6 b7].
  destruct b0, b1, b2, b3, b4, b5, b6, b7; vm_compute; reflexivity.
Qed.

Lemma toLowerCase_idempotent (s : string) :
  toLowerCase (toLowerCase s) = toLowerCase s.
Proof.
  induction s as [|c s IH]; cbn; [reflexivity|].
  now rewrite lower_ascii_idempotent, IH.
Qed.

(** ** What a cell shows *)

Lemma find_exists {A : Type} (f : A -> bool) (l : list A) (a : A) :
  In a l -> f a = true -> exists b, List.find f l = Some b.
Proof.
  intros Hin Hf. destruct (List.find f l) as [b|] eqn:Hfind; [eauto|].
  pose proof (find_none f l Hfind a Hin) as Hnone. congruence.
Qed.

Lemma find_absent {A : Type} (f : A -> bool) (l : list A) :
  (forall a, In a l -> f a = false) -> List.find f l = None.
Proof.
  intros Hall. destruct (List.find f l) as [b|] eqn:Hfind; [|reflexivity].
  apply find_some in Hfind as [Hin Hf]. rewrite (Hall b Hin) in Hf.
  discriminate.
Qed.

(** *** In the local client *)

(** X7.  Fog, walls and the wizard.  Where the discovery map has the row: a cell
    that is not floor shows nothing, whoever stands on it; an undiscovered
    cell without the player shows nothing; the player on a floor cell shows
    as the wizard, discovered or not. *)
Theorem local_cell_blank_or_wizard (d : Dungeon) (gs : GameState)
    (y x cell : Z) (row : list bool) :
  js_get (discovered_tiles gs) y = Some row ->
  (cell <> 0 -> Local.renderCell d gs y x cell = Some "") /\
  (row_lit row x = false ->
   ~ (player_x gs = x /\ player_y gs = y) ->
   Local.renderCell d gs y x cell = Some "") /\
  (cell = 0 -> player_x gs = x -> player_y gs = y ->
   Local.renderCell d gs y x cell = Some Local.wizard).
Proof.
  intros Hrow. unfold Local.renderCell. rewrite Hrow. cbn.
  unfold Local.resolve. repeat split.
  - intros Hcell. destruct (Z.eqb_spec cell 0); [contradiction|].
    now destruct (negb (row_lit row x) && _).
  - intros Hdark Helse. rewrite Hdark.
    destruct (Z.eqb_spec (player_x gs) x), (Z.eqb_spec (player_y gs) y);
      cbn; try reflexivity.
    exfalso. apply Helse. split; assumption.
  - intros -> <- <-. rewrite !Z.eqb_refl. cbn.
    now rewrite andb_false_r.
Qed.

Lemma local_cell_blank_or_wizard_witness :
  Local.renderCell walled_corridor (session_at 2 0 (dark 3 1)) 0 2 Wall
    = Some "" /\
  Local.renderCell walled_corridor (session_at 1 0 (dark 3 1)) 0 0 Floor
    = Some "" /\
  Local.renderCell walled_corridor (session_at 1 0 (dark 3 1)) 0 1 Floor
    = Some Local.wizard.
Proof.
  destruct (local_cell_blank_or_wizard walled_corridor
              (session_at 2 0 (dark 3 1)) 0 2 Wall [false; false; false]
              eq_refl) as (Hwall & _ & _).
  destruct (local_cell_blank_or_wizard walled_corridor
              (session_at 1 0 (dark 3 1)) 0 0 Floor [false; false; false]
              eq_refl) as (_ & Hfog & _).
  destruct (local_cell_blank_or_wizard walled_corridor
              (session_at 1 0 (dark 3 1)) 0 1 Floor [false; false; false]
              eq_refl) as (_ & _ & Hwizard).
  split; [|split].
  - apply Hwall. discriminate.
  - apply Hfog; [reflexivity | intros [H _]; discriminate H].
  - apply Hwizard; reflexivity.
Defined.

(** X8.  Treasure before enemy before trap.  On a discovered floor cell away
    from the player: a treasure on the cell shows as a treasure; failing
    that a living enemy shows as an enemy; failing both a trap shows as
    the trap; with none of them the cell is empty.  Nothing hides a
    treasure but the player: this client has no collected list. *)
Theorem local_glyph_precedence (d : Dungeon) (gs : GameState) (y x : Z)
    (row : list bool) :
  js_get (discovered_tiles gs) y = Some row ->
  row_lit row x = true ->
  ~ (player_x gs = x /\ player_y gs = y) ->
  let here_t := fun t => t_x t = x /\ t_y t = y in
  let here_e := fun e => e_x e = x /\ e_y e = y /\ e_alive e = true in
  let here_tr := fun t => tr_x t = x /\ tr_y t = y in
  ((exists t, In t (treasures d) /\ here_t t) ->
   exists t, In t (treasures d) /\ here_t t /\
     Local.renderCell d gs y x 0 = Some (Local.treasure_emoji t)) /\
  ((forall t, In t (treasures d) -> ~ here_t t) ->
   (exists e, In e (enemies d) /\ here_e e) ->
   exists e, In e (enemies d) /\ here_e e /\
     Local.renderCell d gs y x 0 = Some (Local.enemy_emoji e)) /\
  ((forall t, In t (treasures d) -> ~ here_t t) ->
   (forall e, In e (enemies d) -> ~ here_e e) ->
   (exists t, In t (traps d) /\ here_tr t) ->
   Local.renderCell d gs y x 0 = Some Local.trap_emoji) /\
  ((forall t, In t (treasures d) -> ~ here_t t) ->
   (forall e, In e (enemies d) -> ~ here_e e) ->
   (forall t, In t (traps d) -> ~ here_tr t) ->
   Local.renderCell d gs y x 0 = Some "").
Proof.
  intros Hrow Hlit Helse here_t here_e here_tr.
  assert (Hplayer : (player_x gs =? x) && (player_y gs =? y) = false).
  { destruct (Z.eqb_spec (player_x gs) x), (Z.eqb_spec (player_y gs) y);
      cbn; try reflexivity. exfalso. apply Helse. split; assumption. }
  assert (Hno_t : (forall t, In t (treasures d) -> ~ here_t t) ->
                  Local.find_treasure d x y = None).
  { intros Hnone. apply find_absent. intros t Hin.
    destruct (Z.eqb_spec (t_x t) x), (Z.eqb_spec (t_y t) y); cbn;
      try reflexivity.
    exfalso. apply (Hnone t Hin). split; assumption. }
  assert (Hno_e : (forall e, In e (enemies d) -> ~ here_e e) ->
                  Local.find_enemy d x y = None).
  { intros Hnone. apply find_absent. intros e Hin.
    destruct (Z.eqb_spec (e_x e) x), (Z.eqb_spec (e_y e) y),
      (e_alive e) eqn:Halive; cbn; try reflexivity.
    exfalso. apply (Hnone e Hin). repeat split; assumption. }
  assert (Hno_tr : (forall t, In t (traps d) -> ~ here_tr t) ->
                   Local.find_trap d x y = None).
  { intros Hnone. apply find_absent. intros t Hin.
    destruct (Z.eqb_spec (tr_x t) x), (Z.eqb_spec (tr_y t) y); cbn;
      try reflexivity.
    exfalso. apply (Hnone t Hin). split; assumption. }
  unfold Local.renderCell. rewrite Hrow. cbn. rewrite Hplayer, Hlit.
  unfold Local.resolve. cbn.
  split; [|split; [|split]].
  - intros (t & Hin & Hx & Hy).
    destruct (find_exists (fun t => (t_x t =? x) && (t_y t =? y))
                (treasures d) t Hin) as [t' Hfind].
    { now rewrite Hx, Hy, !Z.eqb_refl. }
    unfold Local.find_treasure. rewrite Hfind.
    apply find_some in Hfind as [Hin' Hhere].
    apply andb_true_iff in Hhere as [Hx' Hy'].
    apply Z.eqb_eq in Hx', Hy'.
    exists t'. repeat split; assumption.
  - intros Hnt (e & Hin & Hx & Hy & Halive).
    rewrite (Hno_t Hnt).
    destruct (find_exists
                (fun e => (e_x e =? x) && (e_y e =? y) && e_alive e)
                (enemies d) e Hin) as [e' Hfind].
    { now rewrite Hx, Hy, Halive, !Z.eqb_refl. }
    unfold Local.find_enemy. rewrite Hfind.
    apply find_some in Hfind as [Hin' Hhere].
    rewrite !andb_true_iff, !Z.eqb_eq in Hhere.
    exists e'. repeat split; tauto.
  - intros Hnt Hne (t & Hin & Hx & Hy).
    rewrite (Hno_t Hnt), (Hno_e Hne).
    destruct (find_exists (fun t => (tr_x t =? x) && (tr_y t =? y))
                (traps d) t Hin) as [t' Hfind].
    { now rewrite Hx, Hy, !Z.eqb_refl. }
    unfold Local.find_trap. now rewrite Hfind.
  - intros Hnt Hne Hntr.
    now rewrite (Hno_t Hnt), (Hno_e Hne), (Hno_tr Hntr).
Qed.

(** *** In the remote client *)


(** The hero's glyph is never empty: an absent class, an absent gender and
    an empty emoji all fall back to the wizard. *)
Lemma hero_glyph_not_empty (hs : gmap string (gmap string Hero))
    (gs : GameState) :
  hero_glyph hs gs <> "".
Proof.
  unfold hero_glyph.
  destruct (hs !! hero_class gs ≫= _) as [h|]; [|discriminate].
  destruct (String.eqb_spec (hero_emoji h) ""); [discriminate | assumption].
Qed.

(** X9.  Fog, walls and the hero.  Where the discovery map has the row: the
    player's cell shows the hero's glyph, which is never empty, on any kind
    of cell and discovered or not; away from the player an undiscovered
    cell shows nothing, and neither does a wall. *)
Theorem remote_cell_hero_fog_wall (hs : gmap string (gmap string Hero))
    (d : Dungeon) (gs : GameState) (y x cell : Z) (row : list bool) :
  js_get (discovered_tiles gs) y = Some row ->
  (player_x gs = x -> player_y gs = y ->
   renderCell hs d gs y x cell = Some (hero_glyph hs gs) /\
   hero_glyph hs gs <> "") /\
  (~ (player_x gs = x /\ player_y gs = y) ->
   row_lit row x = false \/ cell = 1 ->
   renderCell hs d gs y x cell = Some "").
Proof.
  intros Hrow. unfold renderCell. rewrite Hrow. cbn. unfold resolve. split.
  - intros <- <-. rewrite !Z.eqb_refl. cbn. rewrite andb_false_r.
    split; [reflexivity | apply hero_glyph_not_empty].
  - intros Helse Hwhy.
    assert (Hplayer : (player_x gs =? x) && (player_y gs =? y) = false).
    { destruct (Z.eqb_spec (player_x gs) x), (Z.eqb_spec (player_y gs) y);
        cbn; try reflexivity. exfalso. apply Helse. split; assumption. }
    rewrite Hplayer. destruct Hwhy as [Hdark | ->].
    + rewrite Hdark. reflexivity.
    + cbn. now destruct (row_lit row x).
Qed.

Lemma remote_cell_hero_fog_wall_witness :
  renderCell ∅ stocked_dungeon untouched 0 0 Wall
    = Some (hero_glyph ∅ untouched) /\
  renderCell ∅ stocked_dungeon untouched 1 1 Wall = Some "".
Proof.
  destruct (remote_cell_hero_fog_wall ∅ stocked_dungeon untouched 0 0 Wall
              [true; true; true] eq_refl) as [Hhero _].
  destruct (remote_cell_hero_fog_wall ∅ stocked_dungeon untouched 1 1 Wall
              [true; true; true] eq_refl) as [_ Hwall].
  split.
  - apply (Hhero eq_refl eq_refl).
  - apply Hwall; [intros [H _]; discriminate H | right; reflexivity].
Defined.

Lemma enemy_glyph_apart (e : Enemy) :
  enemy_emoji e <> "" /\
  (forall k, enemy_emoji e <> key_emoji k) /\
  (forall t, enemy_emoji e <> treasure_emoji t) /\
  enemy_emoji e <> trap_emoji /\
  (forall dr, enemy_emoji e <> door_emoji dr) /\
  (forall ch, enemy_emoji e <> chest_emoji ch).
Proof. repeat apply conj; glyphs_differ. Qed.

(** X10.  The dead are not drawn.  Away from the player, a cell on which every
    enemy is dead shows no enemy glyph. *)
Theorem dead_enemies_not_drawn (hs : gmap string (gmap string Hero))
    (d : Dungeon) (gs : GameState) (y x cell : Z) (e : Enemy) :
  ~ (player_x gs = x /\ player_y gs = y) ->
  (forall e', In e' (enemies d) -> e_x e' = x -> e_y e' = y ->
              e_alive e' = false) ->
  renderCell hs d gs y x cell <> Some (enemy_emoji e).
Proof.
  intros Helse Hdead Hshow. apply renderCell_glyph_from in Hshow.
  destruct (enemy_glyph_apart e) as (H0 & Hk & Ht & Htr & Hd & Hc).
  inversion Hshow as
    [ Heq | Hx Hy Heq | k ? ? ? ? Heq | t ? ? ? ? Heq
    | e' Hin Hex Hey Halive Heq | tr ? ? ? Heq | dr ? ? ? Heq
    | ch ? ? ? ? Heq ].
  - now apply H0.
  - now apply Helse.
  - now apply (Hk k).
  - now apply (Ht t).
  - rewrite (Hdead e' Hin Hex Hey) in Halive. discriminate.
  - now apply Htr.
  - now apply (Hd dr).
  - now apply (Hc ch).
Qed.

Section RemotePrecedence.

Variable hs : gmap string (gmap string Hero).
Variable d : Dungeon.
Variable gs : GameState.
Variables y x cell : Z.
Variable row : list bool.

Hypothesis row_there : js_get (discovered_tiles gs) y = Some row.
Hypothesis discovered_here : row_lit row x = true.
Hypothesis player_elsewhere : ~ (player_x gs = x /\ player_y gs = y).
Hypothesis not_wall : cell <> 1.

Lemma no_key_found :
  (forall k, In k (keys d) -> ~ key_here gs x y k) -> find_key d gs x y = None.
Proof.
  intros Hnone. apply find_absent. intros k Hin.
  destruct (Z.eqb_spec (k_x k) x), (Z.eqb_spec (k_y k) y),
    (includes (collected_keys gs) (k_id k)) eqn:Hc; cbn; try reflexivity.
  exfalso. apply (Hnone k Hin). repeat split; assumption.
Qed.

Lemma no_treasure_found :
  (forall t, In t (treasures d) -> ~ treasure_here gs x y t) ->
  find_treasure d gs x y = None.
Proof.
  intros Hnone. apply find_absent. intros t Hin.
  destruct (Z.eqb_spec (t_x t) x), (Z.eqb_spec (t_y t) y),
    (includes (collected_treasures gs) (t_id t)) eqn:Hc; cbn;
    try reflexivity.
  exfalso. apply (Hnone t Hin). repeat split; assumption.
Qed.

Lemma no_enemy_found :
  (forall e, In e (enemies d) -> ~ enemy_here x y e) -> find_enemy d x y = None.
Proof.
  intros Hnone. apply find_absent. intros e Hin.
  destruct (Z.eqb_spec (e_x e) x), (Z.eqb_spec (e_y e) y),
    (e_alive e) eqn:Ha; cbn; try reflexivity.
  exfalso. apply (Hnone e Hin). repeat split; assumption.
Qed.

Lemma no_trap_found :
  (forall t, In t (traps d) -> ~ trap_here x y t) -> find_trap d x y = None.
Proof.
  intros Hnone. apply find_absent. intros t Hin.
  destruct (Z.eqb_spec (tr_x t) x), (Z.eqb_spec (tr_y t) y); cbn;
    try reflexivity.
  exfalso. apply (Hnone t Hin). split; assumption.
Qed.

Lemma renderCell_discovered :
  renderCell hs d gs y x cell =
  Some (resolve (hero_glyph hs gs) false true cell (find_treasure d gs x y)
          (find_enemy d x y) (find_trap d x y) (find_door d x y)
          (find_chest d gs x y) (find_key d gs x y)).
Proof.
  unfold renderCell. rewrite row_there. cbn. rewrite discovered_here.
  replace ((player_x gs =? x) && (player_y gs =? y)) with false;
    [reflexivity|].
  destruct (Z.eqb_spec (player_x gs) x), (Z.eqb_spec (player_y gs) y);
    cbn; try reflexivity.
  exfalso. apply player_elsewhere. split; assumption.
Qed.

Lemma resolve_open (treasure : option Treasure) (enemy : option Enemy)
    (trap : option Trap) (door : option DoorEntity)
    (chest : option ChestEntity) (key : option KeyEntity) :
  resolve (hero_glyph hs gs) false true cell treasure enemy trap door chest
    key =
  match key, treasure, enemy, trap with
  | Some k, _, _, _ => key_emoji k
  | None, Some t, _, _ => treasure_emoji t
  | None, None, Some e, _ => enemy_emoji e
  | None, None, None, Some _ => trap_emoji
  | None, None, None, None =>
      if cell =? 2 then from_option door_emoji "" door
      else if cell =? 3 then from_option chest_emoji "" chest
      else ""
  end.
Proof.
  unfold resolve. cbn.
  destruct (Z.eqb_spec cell 1); [contradiction|]. cbn.
  destruct key, treasure, enemy, trap; try reflexivity.
  destruct (Z.eqb_spec cell 0) as [->|]; [reflexivity|].
  destruct (cell =? 2); [now destruct door|].
  destruct (cell =? 3); [now destruct chest|]. reflexivity.
Qed.

(** X11.  Key before treasure before enemy before trap before lock.  On a
    discovered cell that is no wall, away from the player: an uncollected
    key on the cell shows as a key; failing that an uncollected treasure
    shows; failing that a living enemy; failing that a trap; and with none
    of the four a door cell shows the lock of its door, a chest cell the
    lock of its unopened chest, and any other cell nothing. *)
Theorem remote_glyph_precedence :
  ((exists k, In k (keys d) /\ key_here gs x y k) ->
   exists k, In k (keys d) /\ key_here gs x y k /\
     renderCell hs d gs y x cell = Some (key_emoji k)) /\
  ((forall k, In k (keys d) -> ~ key_here gs x y k) ->
   (exists t, In t (treasures d) /\ treasure_here gs x y t) ->
   exists t, In t (treasures d) /\ treasure_here gs x y t /\
     renderCell hs d gs y x cell = Some (treasure_emoji t)) /\
  ((forall k, In k (keys d) -> ~ key_here gs x y k) ->
   (forall t, In t (treasures d) -> ~ treasure_here gs x y t) ->
   (exists e, In e (enemies d) /\ enemy_here x y e) ->
   exists e, In e (enemies d) /\ enemy_here x y e /\
     renderCell hs d gs y x cell = Some (enemy_emoji e)) /\
  ((forall k, In k (keys d) -> ~ key_here gs x y k) ->
   (forall t, In t (treasures d) -> ~ treasure_here gs x y t) ->
   (forall e, In e (enemies d) -> ~ enemy_here x y e) ->
   (exists t, In t (traps d) /\ trap_here x y t) ->
   renderCell hs d gs y x cell = Some trap_emoji) /\
  ((forall k, In k (keys d) -> ~ key_here gs x y k) ->
   (forall t, In t (treasures d) -> ~ treasure_here gs x y t) ->
   (forall e, In e (enemies d) -> ~ enemy_here x y e) ->
   (forall t, In t (traps d) -> ~ trap_here x y t) ->
   (cell = 2 -> (exists dr, In dr (doors d) /\ door_here x y dr) ->
    exists dr, In dr (doors d) /\ door_here x y dr /\
      renderCell hs d gs y x cell = Some (door_emoji dr)) /\
   (cell = 3 -> (exists ch, In ch (chests d) /\ chest_here gs x y ch) ->
    exists ch, In ch (chests d) /\ chest_here gs x y ch /\
      renderCell hs d gs y x cell = Some (chest_emoji ch)) /\
   (cell <> 2 -> cell <> 3 -> renderCell hs d gs y x cell = Some "")).
Proof.
  rewrite renderCell_discovered, resolve_open.
  split; [|split; [|split; [|split]]].
  - intros (k & Hin & Hx & Hy & Hfree).
    destruct (find_exists
                (fun k => (k_x k =? x) && (k_y k =? y) &&
                          negb (includes (collected_keys gs) (k_id k)))
                (keys d) k Hin) as [k' Hfind].
    { now rewrite Hx, Hy, Hfree, !Z.eqb_refl. }
    unfold find_key. rewrite Hfind.
    change (find_key d gs x y = Some k') in Hfind.
    apply find_key_Some in Hfind. exists k'. unfold key_here. tauto.
  - intros Hnk (t & Hin & Hx & Hy & Hfree). rewrite (no_key_found Hnk).
    destruct (find_exists
                (fun t => (t_x t =? x) && (t_y t =? y) &&
                          negb (includes (collected_treasures gs) (t_id t)))
                (treasures d) t Hin) as [t' Hfind].
    { now rewrite Hx, Hy, Hfree, !Z.eqb_refl. }
    unfold find_treasure. rewrite Hfind.
    change (find_treasure d gs x y = Some t') in Hfind.
    apply find_treasure_Some in Hfind. exists t'. unfold treasure_here. tauto.
  - intros Hnk Hnt (e & Hin & Hx & Hy & Halive).
    rewrite (no_key_found Hnk), (no_treasure_found Hnt).
    destruct (find_exists
                (fun e => (e_x e =? x) && (e_y e =? y) && e_alive e)
                (enemies d) e Hin) as [e' Hfind].
    { now rewrite Hx, Hy, Halive, !Z.eqb_refl. }
    unfold find_enemy. rewrite Hfind.
    change (find_enemy d x y = Some e') in Hfind.
    apply find_enemy_Some in Hfind. exists e'. unfold enemy_here. tauto.
  - intros Hnk Hnt Hne (t & Hin & Hx & Hy).
    rewrite (no_key_found Hnk), (no_treasure_found Hnt),
      (no_enemy_found Hne).
    destruct (find_exists (fun t => (tr_x t =? x) && (tr_y t =? y))
                (traps d) t Hin) as [t' Hfind].
    { now rewrite Hx, Hy, !Z.eqb_refl. }
    unfold find_trap. now rewrite Hfind.
  - intros Hnk Hnt Hne Hntr.
    rewrite (no_key_found Hnk), (no_treasure_found Hnt),
      (no_enemy_found Hne), (no_trap_found Hntr).
    split; [|split].
    + intros -> (dr & Hin & Hx & Hy). cbn.
      destruct (find_exists (fun d' => (d_x d' =? x) && (d_y d' =? y))
                  (doors d) dr Hin) as [dr' Hfind].
      { now rewrite Hx, Hy, !Z.eqb_refl. }
      unfold find_door. rewrite Hfind.
      change (find_door d x y = Some dr') in Hfind.
      apply find_door_Some in Hfind. exists dr'. unfold door_here. tauto.
    + intros -> (ch & Hin & Hx & Hy & Hfree). cbn.
      destruct (find_exists
                  (fun c => (c_x c =? x) && (c_y c =? y) &&
                            negb (includes (opened_chests gs) (c_id c)))
                  (chests d) ch Hin) as [ch' Hfind].
      { now rewrite Hx, Hy, Hfree, !Z.eqb_refl. }
      unfold find_chest. rewrite Hfind.
      change (find_chest d gs x y = Some ch') in Hfind.
      apply find_chest_Some in Hfind. exists ch'. unfold chest_here. tauto.
    + intros H2 H3.
      destruct (Z.eqb_spec cell 2); [contradiction|].
      destruct (Z.eqb_spec cell 3); [contradiction|]. reflexivity.
Qed.

End RemotePrecedence.

(** ** The shape of the rendered grid *)

Section Grid.

Variable cellf : Z -> Z -> Z -> option string.
Variable tiles : list (list bool).

Hypothesis cell_needs_row :
  forall y x cell, is_Some (cellf y x cell) <-> is_Some (js_get tiles y).

Lemma render_row_length (y : nat) (row : list Z) (glyphs : list string) :
  render_row cellf y row = Some glyphs -> length glyphs = length row.
Proof.
  intros H. apply mapM_Some_1, Forall2_length in H.
  now rewrite length_imap in H.
Qed.

Lemma render_row_is_Some (y : nat) (row : list Z) :
  (y < length tiles)%nat -> is_Some (render_row cellf y row).
Proof.
  intros Hy. apply mapM_is_Some_2, Forall_lookup. intros i [x cell] _.
  cbn. apply cell_needs_row, js_get_is_Some. lia.
Qed.

Lemma render_row_None (y : nat) (row : list Z) :
  row <> [] -> (length tiles <= y)%nat -> render_row cellf y row = None.
Proof.
  intros Hrow Hy. destruct row as [|cell row]; [contradiction|].
  apply mapM_None_2. rewrite imap_cons. apply Exists_cons_hd.
  destruct (cellf (Z.of_nat y) (Z.of_nat 0) cell) as [s|] eqn:Hcell;
    [|reflexivity].
  exfalso. assert (Hsome : is_Some (js_get tiles (Z.of_nat y))).
  { apply (cell_needs_row _ (Z.of_nat 0) cell). rewrite Hcell. eauto. }
  destruct Hsome as [r Hr]. apply js_get_Some_range in Hr. lia.
Qed.

Lemma render_rows_from (grid : list (list Z)) : forall (from : nat),
  (from + length grid <= length tiles)%nat ->
  exists glyphs : list (list string),
    mapM (fun '(y, row) => render_row cellf y row)
      (imap (fun i row => (from + i, row)%nat) grid) = Some glyphs /\
    Forall2 (fun row shown => length shown = length row) grid glyphs.
Proof.
  induction grid as [|row grid IH]; intros from Hrows.
  - exists []. split; [reflexivity | constructor].
  - rewrite imap_cons. cbn [mapM].
    destruct (render_row_is_Some (from + 0) row) as [shown Hshown];
      [cbn in Hrows; lia|].
    rewrite Hshown. cbn.
    destruct (IH (S from)) as (glyphs & Hrest & Hshape);
      [cbn in Hrows; lia|].
    rewrite (imap_ext _ (fun i row => (S from + i, row)%nat)) by
      (intros i r _; cbn; f_equal; lia).
    rewrite Hrest. cbn. exists (shown :: glyphs).
    split; [reflexivity|]. constructor; [|exact Hshape].
    now apply render_row_length in Hshown.
Qed.

Lemma render_rows_shape (grid : list (list Z)) :
  (length grid <= length tiles)%nat ->
  exists glyphs : list (list string),
    mapM (fun '(y, row) => render_row cellf y row) (imap pair grid)
      = Some glyphs /\
    Forall2 (fun row shown => length shown = length row) grid glyphs.
Proof.
  intros Hrows. apply (render_rows_from grid 0). cbn. exact Hrows.
Qed.

Lemma render_rows_None (grid : list (list Z)) (y : nat) (row : list Z) :
  grid !! y = Some row -> row <> [] -> (length tiles <= y)%nat ->
  mapM (fun '(y, row) => render_row cellf y row) (imap pair grid) = None.
Proof.
  intros Hlook Hrow Hy. apply mapM_None_2, Exists_exists.
  exists (y, row). split.
  - apply list_elem_of_lookup. exists y.
    rewrite list_lookup_imap, Hlook. reflexivity.
  - now apply render_row_None.
Qed.

End Grid.

Lemma local_cell_needs_row (d : Dungeon) (gs : GameState) (y x cell : Z) :
  is_Some (Local.renderCell d gs y x cell) <->
  is_Some (js_get (discovered_tiles gs) y).
Proof.
  unfold Local.renderCell.
  destruct (js_get (discovered_tiles gs) y); cbn; split; eauto;
    intros [? H]; discriminate H.
Qed.

Lemma remote_cell_needs_row (hs : gmap string (gmap string Hero))
    (d : Dungeon) (gs : GameState) (y x cell : Z) :
  is_Some (renderCell hs d gs y x cell) <->
  is_Some (js_get (discovered_tiles gs) y).
Proof.
  unfold renderCell.
  destruct (js_get (discovered_tiles gs) y); cbn; split; eauto;
    intros [? H]; discriminate H.
Qed.

(** X12.  The local grid is drawn cell for cell, or not at all.  With a
    discovery row for every grid row [renderDungeon] yields one glyph for
    each cell of [dungeon.grid], row by row; with a non-empty grid row
    beyond the discovery map it throws. *)
Theorem local_renderDungeon_shape (d : Dungeon) (gs : GameState) :
  ((length (grid d) <= length (discovered_tiles gs))%nat ->
   exists glyphs : list (list string),
     Local.renderDungeon (Some gs) (Some d) = Local.RenderGrid glyphs /\
     Forall2 (fun row shown => length shown = length row) (grid d) glyphs) /\
  (forall (y : nat) (row : list Z),
     grid d !! y = Some row -> row <> [] ->
     (length (discovered_tiles gs) <= y)%nat ->
     Local.renderDungeon (Some gs) (Some d) = Local.RenderThrows).
Proof.
  unfold Local.renderDungeon. split.
  - intros Hrows.
    destruct (render_rows_shape (Local.renderCell d gs) (discovered_tiles gs)
                (local_cell_needs_row d gs) (grid d) Hrows)
      as (glyphs & Hrun & Hshape).
    unfold render_row in Hrun. rewrite Hrun. eauto.
  - intros y row Hlook Hrow Hy.
    pose proof (render_rows_None (Local.renderCell d gs) (discovered_tiles gs)
                  (local_cell_needs_row d gs) (grid d) y row Hlook Hrow Hy)
      as Hrun.
    unfold render_row in Hrun. now rewrite Hrun.
Qed.

(** X13.  The remote grid is drawn cell for cell, or not at all.  With a dungeon
    and a game state whose discovery map has a row for every grid row,
    [renderDungeon] yields one glyph for each cell of [dungeon.grid], row
    by row; with a non-empty grid row beyond the discovery map it throws. *)
Theorem remote_renderDungeon_shape (c : Client) (d : Dungeon)
    (gs : GameState) :
  dungeon c = Some d -> gameState c = Some gs ->
  ((length (grid d) <= length (discovered_tiles gs))%nat ->
   exists glyphs : list (list string),
     renderDungeon c = RenderGrid glyphs /\
     Forall2 (fun row shown => length shown = length row) (grid d) glyphs) /\
  (forall (y : nat) (row : list Z),
     grid d !! y = Some row -> row <> [] ->
     (length (discovered_tiles gs) <= y)%nat ->
     renderDungeon c = RenderThrows).
Proof.
  intros Hd Hgs. unfold renderDungeon. rewrite Hd, Hgs. split.
  - intros Hrows.
    destruct (render_rows_shape (renderCell (heroes c) d gs)
                (discovered_tiles gs) (remote_cell_needs_row (heroes c) d gs)
                (grid d) Hrows) as (glyphs & Hrun & Hshape).
    unfold render_row in Hrun. rewrite Hrun. eauto.
  - intros y row Hlook Hrow Hy.
    pose proof (render_rows_None (renderCell (heroes c) d gs)
                  (discovered_tiles gs)
                  (remote_cell_needs_row (heroes c) d gs) (grid d) y row
                  Hlook Hrow Hy) as Hrun.
    unfold render_row in Hrun. now rewrite Hrun.
Qed.

(** ** The game handlers, whatever the server answers *)

Section Handlers.

Context {A : Type}.

Lemma updates_satisfy_bind {B : Type}
    (P : (Client -> option Client) -> Prop) (m : Async A) (f : A -> Async B) :
  updates_satisfy P m -> (forall a, updates_satisfy P (f a)) ->
  updates_satisfy P (Remote.bind m f).
Proof.
  intros Hm Hf. induction Hm; cbn; try (constructor; auto); auto.
Qed.

Lemma updates_satisfy_try_catch (P : (Client -> option Client) -> Prop)
    (m h : Async A) :
  updates_satisfy P m -> updates_satisfy P h ->
  updates_satisfy P (Remote.try_catch m h).
Proof.
  intros Hm Hh. induction Hm; cbn; try (constructor; auto); auto.
Qed.

(** A relation that every update respects is respected by the run. *)
Lemma run_from_respects (R : Client -> Client -> Prop) (m : Async A)
    (server : Server) :
  (forall c, R c c) -> (forall c1 c2 c3, R c1 c2 -> R c2 c3 -> R c1 c3) ->
  updates_satisfy (fun u => forall c c', u c = Some c' -> R c c') m ->
  forall c requests lines,
    R c (client (run_from m server c requests lines)).
Proof.
  intros Hrefl Htrans Hm.
  induction Hm as [a | | f k Hf Hk IH | u k Hu Hk IH | r k Hk IH
                   | msg k Hk IH];
    intros c requests lines; cbn [run_from]; auto.
  - apply Htrans with (f c); auto.
  - destruct (u c) as [c'|] eqn:Huc; cbn; [|apply Hrefl].
    apply Htrans with c'; auto.
Qed.

(** An update that commutes with [g] on every path lets the whole run
    commute with [g]. *)
Lemma run_from_commutes (g : Client -> Client) (m : Async A)
    (server : Server) :
  updates_satisfy (fun u => forall c, u (g c) = g <$> u c) m ->
  forall c requests lines,
    run_from m server (g c) requests lines =
    let o := run_from m server c requests lines in
    mkOutcome (g (client o)) (sent o) (console o) (escaped o).
Proof.
  intros Hm.
  induction Hm as [a | | f k Hf Hk IH | u k Hu Hk IH | r k Hk IH
                   | msg k Hk IH];
    intros c requests lines; cbn [run_from]; auto.
  - specialize (Hf c). unfold total in Hf. cbn in Hf.
    injection Hf as ->. apply IH.
  - rewrite Hu. destruct (u c) as [c'|]; cbn; [apply IH|].
    now rewrite IH.
Qed.

Lemma updates_satisfy_weaken (P Q : (Client -> option Client) -> Prop)
    (m : Async A) :
  (forall u, P u -> Q u) -> updates_satisfy P m -> updates_satisfy Q m.
Proof.
  intros HPQ Hm. induction Hm; constructor; auto.
Qed.

End Handlers.

Local Ltac handler_shape :=
  repeat first
    [ apply updates_satisfy_try_catch
    | apply updates_satisfy_bind
    | apply us_axios; intros [?|]
    | apply us_set; [solve [constructor]|]
    | apply us_set_by; [solve [constructor]|]
    | apply us_console
    | apply us_ret
    | apply us_throw
    | progress intros
    | progress (unfold when, await, update, update_by, console_error)
    | progress (cbn [mbind mret Async_bind Async_ret])
    | match goal with
      | |- updates_satisfy _ (if ?b then _ else _) => destruct b
      | |- updates_satisfy _ (match ?o with Some _ => _ | None => _ end) =>
          destruct o
      | |- updates_satisfy _ (let _ := _ in _) => cbn zeta
      end ].

Lemma movePlayer_updates (gameState : option GameState) (direction : string) :
  updates_satisfy handler_update (movePlayer gameState direction).
Proof.
  unfold movePlayer. destruct gameState as [gs|]; [|constructor].
  destruct (in_combat gs); [constructor|].
  handler_shape.
Qed.

Lemma performCombatAction_updates (gameState : option GameState)
    (actionType : string) :
  updates_satisfy handler_update (performCombatAction gameState actionType).
Proof.
  unfold performCombatAction. destruct gameState as [gs|]; [|constructor].
  destruct (negb (in_combat gs)); [constructor|].
  handler_shape.
Qed.

Lemma handleKeyPress_updates (c : Client) (key : string) :
  updates_satisfy handler_update (handleKeyPress c key).
Proof.
  unfold handleKeyPress.
  destruct (gameState c) as [gs|]; [|constructor].
  destruct (dungeon c); [|constructor]. cbn zeta.
  repeat match goal with
    | |- updates_satisfy _ (if ?b then _ else _) => destruct b
    end;
    first [ apply movePlayer_updates
          | solve [handler_shape]
          | unfold when; destruct (in_combat gs);
            [apply performCombatAction_updates | constructor] ].
Qed.

(** What each of the five updates does to the state cells. *)
Lemma handler_update_cases (u : Client -> option Client) (c c' : Client) :
  handler_update u -> u c = Some c' ->
  dungeon c' = dungeon c /\ heroes c' = heroes c /\
  currentView c' = currentView c /\
  (exists more, combatLog c' = (combatLog c ++ more)%list) /\
  (gameState c' = gameState c \/
   (exists hp, gameState c' = patch_player_hp hp <$> gameState c) \/
   (exists fetched, gameState c' = fetched)).
Proof.
  intros Hu Huc. destruct Hu; unfold total in Huc; cbn in Huc.
  - injection Huc as <-. cbn. split_and!; eauto.
    exists []. now rewrite app_nil_r.
  - injection Huc as <-. cbn. split_and!; eauto.
    exists []. now rewrite app_nil_r.
  - injection Huc as <-. cbn. split_and!; eauto.
  - injection Huc as <-. cbn. split_and!; eauto.
    exists []. now rewrite app_nil_r.
  - unfold setCombatLogBy, combat_started in Huc.
    destruct (MoveResult.combat_enemy result); cbn in Huc; [|discriminate].
    injection Huc as <-. cbn. split_and!; eauto.
Qed.

(** *** Which exceptions go uncaught *)

(** [performCombatAction] queues no updater that reads an optional field,
    and its catch takes every throw. *)
Lemma performCombatAction_never_escapes (gameState : option GameState)
    (actionType : string) (server : Server) (c : Client) :
  escaped (run (performCombatAction gameState actionType) server c) = false.
Proof.
  unfold performCombatAction, run.
  destruct gameState as [gs|]; [|reflexivity].
  destruct (in_combat gs); [|reflexivity]. cbn.
  destruct (server [] _) as [result|]; cbn; [|reflexivity].
  destruct (CombatResult.combat_ended result); cbn.
  - destruct (server [_] _) as [fresh|]; cbn; [|reflexivity].
    now destruct (CombatResult.player_defeated result).
  - now destruct (CombatResult.player_defeated result).
Qed.

(** The one exception that leaves [movePlayer]: the move is accepted, the
    fetch is answered, the answer to the move announces a combat and
    names no enemy. *)
Lemma movePlayer_escapes (gameState : option GameState) (direction : string)
    (server : Server) (c : Client) :
  escaped (run (movePlayer gameState direction) server c) = true <->
  exists (gs : GameState) (result : MoveResult.t)
         (fetched : option GameState),
    gameState = Some gs /\ in_combat gs = false /\
    server [] (PostMovePlayer (id gs) direction) = Some result /\
    MoveResult.success result = true /\
    server [PostMovePlayer (id gs) direction] (GetGame (id gs))
    = Some fetched /\
    MoveResult.in_combat result = true /\
    MoveResult.combat_enemy result = None.
Proof.
  unfold movePlayer, run.
  destruct gameState as [gs|].
  2:{ cbn. split; [discriminate|]. now intros (? & ? & ? & [=] & _). }
  destruct (in_combat gs) eqn:Hcombat.
  { cbn. split; [discriminate|].
    intros (gs' & ? & ? & [= <-] & Hc & _). congruence. }
  cbn.
  destruct (server [] _) as [result|] eqn:Hpost; cbn.
  2:{ split; [discriminate|].
      intros (gs' & ? & ? & [= <-] & _ & Hp & _). congruence. }
  destruct (MoveResult.success result) eqn:Hsuccess; cbn.
  2:{ split; [discriminate|].
      intros (gs' & r & ? & [= <-] & _ & Hp & Hs & _).
      rewrite Hpost in Hp. injection Hp as <-. congruence. }
  destruct (server [_] _) as [fetched|] eqn:Hfetch; cbn.
  2:{ split; [discriminate|].
      intros (gs' & r & ? & [= <-] & _ & _ & _ & Hf & _). congruence. }
  destruct (truthy (MoveResult.message result)); cbn;
    unfold when, update_by;
    destruct (MoveResult.in_combat result) eqn:Hfight; cbn;
    unfold setCombatLogBy, combat_started;
    try (destruct (MoveResult.combat_enemy result) eqn:Hnone; cbn);
    (split;
     [ try discriminate; intros _; exists gs, result, fetched;
       split_and!; auto
     | intros (gs' & r & f & [= <-] & _ & Hp & _ & _ & Hfight' & Hnone');
       rewrite Hpost in Hp; injection Hp as <-; congruence ]).
Qed.

(** An exception that leaves the key handler is one that leaves
    [movePlayer]. *)
Lemma handleKeyPress_escapes (c : Client) (key : string) (server : Server) :
  escaped (run (handleKeyPress c key) server c) = true ->
  exists direction,
    escaped (run (movePlayer (gameState c) direction) server c) = true.
Proof.
  unfold handleKeyPress.
  destruct (gameState c) as [gs|] eqn:Hgs; [|discriminate].
  destruct (dungeon c); [|discriminate]. cbn zeta.
  repeat match goal with
    | |- escaped (run (if ?b then _ else _) _ _) = true -> _ =>
        destruct b; [solve [eauto]|]
    end.
  destruct (String.eqb (toLowerCase key) "i"); [discriminate|].
  unfold when.
  destruct (String.eqb (toLowerCase key) "1").
  { destruct (in_combat gs); [|discriminate].
    now rewrite performCombatAction_never_escapes. }
  destruct (String.eqb (toLowerCase key) "2"); [|discriminate].
  destruct (in_combat gs); [|discriminate].
  now rewrite performCombatAction_never_escapes.
Qed.

(** *** Bodies that are there *)

Section FullAnswers.

Variable server : Server.
Variable c : Client.

Hypothesis fetch_in_full :
  forall requests game_id, server requests (GetGame game_id) <> Some None.

Lemma performCombatAction_keeps_game (actionType : string) :
  is_Some (gameState c) ->
  is_Some (gameState (client (run (performCombatAction (gameState c)
                                     actionType) server c))).
Proof.
  intros [gs Hgs]. rewrite Hgs. unfold performCombatAction, run.
  destruct (in_combat gs); cbn; [|rewrite Hgs; eauto].
  destruct (server [] _) as [result|]; cbn; [|rewrite Hgs; eauto].
  destruct (CombatResult.combat_ended result); cbn.
  - destruct (server [_] _) as [[fresh|]|] eqn:Hfetch; cbn.
    + destruct (CombatResult.player_defeated result); cbn; eauto.
    + now apply fetch_in_full in Hfetch.
    + rewrite Hgs. eauto.
  - destruct (CombatResult.player_defeated result); cbn; rewrite Hgs; cbn;
      eauto.
Qed.

Lemma movePlayer_keeps_game (direction : string) :
  is_Some (gameState c) ->
  is_Some (gameState (client (run (movePlayer (gameState c) direction)
                                server c))).
Proof.
  intros [gs Hgs]. rewrite Hgs. unfold movePlayer, run.
  destruct (in_combat gs); cbn; [rewrite Hgs; eauto|].
  destruct (server [] _) as [result|]; cbn; [|rewrite Hgs; eauto].
  destruct (MoveResult.success result); cbn; [|rewrite Hgs; eauto].
  destruct (server [_] _) as [[fresh|]|] eqn:Hfetch; cbn.
  - unfold when, update_by.
    destruct (truthy (MoveResult.message result)); cbn;
      destruct (MoveResult.in_combat result); cbn;
      unfold setCombatLogBy, combat_started;
      try (destruct (MoveResult.combat_enemy result); cbn); eauto.
  - now apply fetch_in_full in Hfetch.
  - rewrite Hgs. eauto.
Qed.

Lemma handleKeyPress_keeps_game (key : string) :
  is_Some (gameState c) ->
  is_Some (gameState (client (run (handleKeyPress c key) server c))).
Proof.
  intros [gs Hgs]. unfold handleKeyPress. rewrite Hgs.
  destruct (dungeon c); [|cbn; rewrite Hgs; eauto]. cbn zeta.
  rewrite <- Hgs.
  repeat match goal with
    | |- is_Some (gameState (client (run (if ?b then _ else _) _ _))) =>
        destruct b; [solve [apply movePlayer_keeps_game; rewrite Hgs; eauto]|]
    end.
  destruct (String.eqb (toLowerCase key) "i"); [cbn; rewrite Hgs; eauto|].
  unfold when.
  destruct (String.eqb (toLowerCase key) "1").
  { destruct (in_combat gs); [|cbn; rewrite Hgs; eauto].
    apply performCombatAction_keeps_game. rewrite Hgs. eauto. }
  destruct (String.eqb (toLowerCase key) "2"); [|cbn; rewrite Hgs; eauto].
  destruct (in_combat gs); [|cbn; rewrite Hgs; eauto].
  apply performCombatAction_keeps_game. rewrite Hgs. eauto.
Qed.

End FullAnswers.

Section AnyAnswer.

Variable server : Server.
Variable c : Client.

(** X14.  Which exceptions leave a game handler.  None leaves
    [performCombatAction], whatever the server answers or fails to answer.
    One leaves [movePlayer]: when the move is accepted, the fetch is
    answered and the answer to the move announces a combat and names no
    enemy, the updater of the combat line throws as React runs it, past
    the catch block.  With a server that names the enemy of every combat
    it announces no exception leaves a game handler.  (The answers to the
    two POSTs are objects with the fields of [MoveResult] and
    [CombatResult]; the body of the fetch may be [null].) *)
Theorem exceptions_of_game_handlers (key direction actionType : string) :
  escaped (run (performCombatAction (gameState c) actionType) server c)
    = false /\
  (escaped (run (movePlayer (gameState c) direction) server c) = true <->
   exists (gs : GameState) (result : MoveResult.t)
          (fetched : option GameState),
     gameState c = Some gs /\ in_combat gs = false /\
     server [] (PostMovePlayer (id gs) direction) = Some result /\
     MoveResult.success result = true /\
     server [PostMovePlayer (id gs) direction] (GetGame (id gs))
     = Some fetched /\
     MoveResult.in_combat result = true /\
     MoveResult.combat_enemy result = None) /\
  (names_enemies server ->
   escaped (run (handleKeyPress c key) server c) = false /\
   escaped (run (movePlayer (gameState c) direction) server c) = false).
Proof.
  split; [apply performCombatAction_never_escapes|].
  split; [apply movePlayer_escapes|].
  intros Hnames.
  assert (Hmove : forall direction',
    escaped (run (movePlayer (gameState c) direction') server c) = false).
  { intros direction'. apply not_true_is_false. intros Hesc.
    apply movePlayer_escapes in Hesc
      as (gs & result & fetched & _ & _ & Hpost & Hsuccess & _ & Hfight
          & Hnone).
    destruct (Hnames _ _ _ _ Hpost Hsuccess Hfight) as [enemy Henemy].
    congruence. }
  split; [|apply Hmove].
  apply not_true_is_false. intros Hesc.
  apply handleKeyPress_escapes in Hesc as [direction' Hesc].
  now rewrite Hmove in Hesc.
Qed.

(** X15.  The combat log only grows.  After a key press whose handler ends
    without an uncaught exception the log is the log before it followed by
    the lines the handler appended: no handler drops or rewrites a line. *)
Theorem key_press_extends_log (key : string) :
  let o := run (handleKeyPress c key) server c in
  escaped o = false ->
  exists more : list (option string),
    combatLog (client o) = (combatLog c ++ more)%list.
Proof.
  intros o _. subst o.
  apply (run_from_respects
           (fun c1 c2 => exists more,
              combatLog c2 = (combatLog c1 ++ more)%list)).
  - intros c1. exists []. now rewrite app_nil_r.
  - intros c1 c2 c3 [m1 H1] [m2 H2]. exists (m1 ++ m2)%list.
    now rewrite H2, H1, app_assoc.
  - apply (updates_satisfy_weaken handler_update);
      [|apply handleKeyPress_updates].
    intros u Hu c1 c2 Huc.
    now destruct (handler_update_cases u c1 c2 Hu Huc) as (_ & _ & _ & H & _).
Qed.

(** X16.  What a key press leaves alone.  After a key press whose handler ends
    without an uncaught exception the dungeon, the hero roster and the
    current view are the same.  A game state that was there is still
    there, as long as no fetch is answered with an empty body. *)
Theorem key_press_frame (key : string) :
  let o := run (handleKeyPress c key) server c in
  escaped o = false ->
  dungeon (client o) = dungeon c /\ heroes (client o) = heroes c /\
  currentView (client o) = currentView c /\
  ((forall requests game_id,
      server requests (GetGame game_id) <> Some None) ->
   is_Some (gameState c) -> is_Some (gameState (client o))).
Proof.
  intros o _. subst o.
  assert (Hframe :
    let c' := client (run (handleKeyPress c key) server c) in
    dungeon c' = dungeon c /\ heroes c' = heroes c /\
    currentView c' = currentView c).
  { apply (run_from_respects
             (fun c1 c2 =>
                dungeon c2 = dungeon c1 /\ heroes c2 = heroes c1 /\
                currentView c2 = currentView c1)).
    - intros c1. repeat split.
    - intros c1 c2 c3 (Hd1 & Hh1 & Hv1) (Hd2 & Hh2 & Hv2).
      repeat split; congruence.
    - apply (updates_satisfy_weaken handler_update);
        [|apply handleKeyPress_updates].
      intros u Hu c1 c2 Huc.
      destruct (handler_update_cases u c1 c2 Hu Huc) as (? & ? & ? & _).
      auto. }
  cbn zeta in Hframe. destruct Hframe as (Hd & Hh & Hv).
  split_and!; auto.
  intros Hfull. now apply handleKeyPress_keeps_game.
Qed.

End AnyAnswer.

Section Requests.

Variable server : Server.
Variable c : Client.
Variable gs : GameState.

Hypothesis game_there : gameState c = Some gs.

Local Ltac answers :=
  repeat match goal with
    | |- context [server ?h ?r] =>
        destruct (server h r) as [?|]; cbn
    | |- context [if ?b then _ else _] => destruct b; cbn
    | |- context [MoveResult.combat_enemy ?r] =>
        destruct (MoveResult.combat_enemy r); cbn
    end.

Lemma movePlayer_requests (direction : string) :
  addressed gs (sent (run (movePlayer (Some gs) direction) server c)).
Proof.
  unfold addressed, movePlayer, run, when, update_by, setCombatLogBy,
    combat_started.
  destruct (in_combat gs); cbn; answers;
    repeat split; repeat constructor; cbn; intuition.
Qed.

Lemma performCombatAction_requests (actionType : string) :
  addressed gs (sent (run (performCombatAction (Some gs) actionType) server c)).
Proof.
  unfold addressed, performCombatAction, run, when.
  destruct (in_combat gs); cbn; answers;
    repeat split; repeat constructor; cbn; intuition.
Qed.

(** X17.  Requests go to the game in hand, two at most.  Every request a key
    press sends names the id of the current game state; there are at most
    two, and the second can only be the fetch of that game. *)
Theorem key_press_requests (key : string) :
  let requests := sent (run (handleKeyPress c key) server c) in
  Forall (fun r => request_game r = id gs) requests /\
  (length requests <= 2)%nat /\
  (forall r, In r (tail requests) -> r = GetGame (id gs)).
Proof.
  cbn zeta. fold (addressed gs (sent (run (handleKeyPress c key) server c))).
  unfold handleKeyPress. rewrite game_there.
  destruct (dungeon c); [|unfold addressed; cbn; intuition].
  cbn zeta.
  repeat match goal with
    | |- addressed gs (sent (run (if ?b then _ else _) _ _)) => destruct b
    end;
    first [ apply movePlayer_requests
          | unfold when; destruct (in_combat gs) eqn:Hfight;
            [apply performCombatAction_requests
            | unfold addressed; cbn; intuition]
          | unfold addressed; cbn; intuition ].
Qed.

End Requests.

Section Moves.

Variable server : Server.
Variable c : Client.
Variable gs : GameState.
Variable direction : string.
Variable result : MoveResult.t.

Hypothesis game_there : gameState c = Some gs.
Hypothesis at_peace : in_combat gs = false.
Hypothesis answered :
  server [] (PostMovePlayer (id gs) direction) = Some result.

(** X18.  A move the server refuses.  When the answer says [success] is false the
    client fetches nothing and keeps its game state; the one thing it does
    is append [result.message] to the log, present or not. *)
Theorem refused_move_only_logs :
  MoveResult.success result = false ->
  run (movePlayer (gameState c) direction) server c
  = mkOutcome
      (setCombatLog (fun prev => (prev ++ [MoveResult.message result])%list) c)
      [PostMovePlayer (id gs) direction] [] false.
Proof.
  intros Hrefused. rewrite game_there. unfold movePlayer, run.
  rewrite at_peace. cbn. rewrite answered. cbn. rewrite Hrefused.
  reflexivity.
Qed.

(** X19.  A move the server accepts.  The fetched body, a game state or
    [null], replaces the game state and the log gains the message of the
    answer, if it has a non-empty one, and then, if the answer announces a
    combat with an enemy, the line naming the enemy's type. *)
Theorem accepted_move_installs_and_logs (fetched : option GameState) :
  MoveResult.success result = true ->
  server [PostMovePlayer (id gs) direction] (GetGame (id gs)) = Some fetched ->
  (MoveResult.in_combat result = true ->
   is_Some (MoveResult.combat_enemy result)) ->
  let o := run (movePlayer (gameState c) direction) server c in
  gameState (client o) = fetched /\
  combatLog (client o)
  = (combatLog c
     ++ (if truthy (MoveResult.message result)
         then [MoveResult.message result] else [])
     ++ (if MoveResult.in_combat result
         then match MoveResult.combat_enemy result with
              | Some enemy =>
                  [Some (String.append "Combat started with "
                           (String.append (e_type enemy) "!"))]
              | None => []
              end
         else []))%list /\
  console o = [] /\ escaped o = false.
Proof.
  intros Haccepted Hfetch Henemy o. subst o.
  rewrite game_there. unfold movePlayer, run.
  rewrite at_peace. cbn. rewrite answered. cbn. rewrite Haccepted. cbn.
  rewrite Hfetch. cbn. unfold when, update_by, setCombatLogBy, combat_started.
  destruct (truthy (MoveResult.message result)); cbn;
    destruct (MoveResult.in_combat result); cbn;
    try (destruct (Henemy eq_refl) as [enemy ->]; cbn);
    rewrite <- ?app_assoc, ?app_nil_r; repeat split.
Qed.

End Moves.

Lemma refused_move_only_logs_witness :
  run (movePlayer (gameState (playing (session false 100))) "up")
    (answers (Some (MoveResult.mk false (Some "A wall blocks the way.")
                      false None)) None None)
    (playing (session false 100))
  = mkOutcome
      (setCombatLog (fun prev => (prev ++ [Some "A wall blocks the way."])%list)
         (playing (session false 100)))
      [PostMovePlayer "g1" "up"] [] false.
Proof.
  apply (refused_move_only_logs
           (answers (Some (MoveResult.mk false
                             (Some "A wall blocks the way.") false None))
              None None)
           (playing (session false 100)) (session false 100) "up"
           (MoveResult.mk false (Some "A wall blocks the way.") false None));
    reflexivity.
Defined.

Lemma accepted_move_installs_and_logs_witness :
  let o := run (movePlayer (gameState (playing (session false 100))) "up")
             (answers (Some (MoveResult.mk true (Some "You step forward.")
                               true (Some goblin)))
                (Some (session true 100)) None)
             (playing (session false 100)) in
  gameState (client o) = Some (session true 100) /\
  combatLog (client o)
  = [Some "You step forward."; Some "Combat started with goblin!"] /\
  console o = [] /\ escaped o = false.
Proof.
  apply (accepted_move_installs_and_logs
           (answers (Some (MoveResult.mk true (Some "You step forward.")
                             true (Some goblin)))
              (Some (session true 100)) None)
           (playing (session false 100)) (session false 100) "up"
           (MoveResult.mk true (Some "You step forward.") true (Some goblin))
           eq_refl eq_refl eq_refl (Some (session true 100)) eq_refl eq_refl).
  intros _. cbn. eauto.
Defined.

(** *** The inventory key, the panels and the views *)

(** X20.  The inventory key is a toggle.  Pressing it twice, in either case,
    sends nothing and leaves every state cell as it was. *)
Theorem inventory_key_twice (server server' : Server) (c : Client)
    (key key' : string) :
  toLowerCase key = "i" -> toLowerCase key' = "i" ->
  let o := run (handleKeyPress c key) server c in
  let o' := run (handleKeyPress (client o) key') server' (client o) in
  client o' = c /\ sent o = [] /\ sent o' = [].
Proof.
  intros Hkey Hkey'. cbn zeta. unfold handleKeyPress.
  rewrite Hkey. destruct c as [g d hs log inv view].
  destruct g as [gs|], d as [dn|]; cbn; try (repeat split; fail).
  rewrite Hkey'. cbn. rewrite negb_involutive. repeat split.
Qed.

Lemma inventory_key_twice_witness :
  let c := playing (session false 100) in
  let o := run (handleKeyPress c "i") (answers None None None) c in
  let o' := run (handleKeyPress (client o) "I") (answers None None None)
              (client o) in
  client o' = c /\ sent o = [] /\ sent o' = [].
Proof.
  apply (inventory_key_twice (answers None None None) (answers None None None)
           (playing (session false 100)) "i" "I"); reflexivity.
Defined.

(** X21.  The combat buttons are there when they work.  The combat panel is
    rendered exactly when a combat action would send a request, which is
    exactly when a move would not. *)
Theorem combat_panel_matches_gates (server : Server) (c : Client)
    (gs : GameState) (direction actionType : string) :
  gameState c = Some gs ->
  (renderCombatInterface c = true <->
   sent (run (performCombatAction (gameState c) actionType) server c) <> []) /\
  (renderCombatInterface c = true <->
   sent (run (movePlayer (gameState c) direction) server c) = []).
Proof.
  intros Hgs. unfold renderCombatInterface. rewrite Hgs.
  pose proof (performCombatAction_gate (Some gs) actionType server c)
    as Hfight.
  pose proof (movePlayer_gate (Some gs) direction server c) as Hmove.
  assert (Hone : forall b,
    (forall gs', Some gs = Some gs' -> in_combat gs' = b) <->
    in_combat gs = b).
  { intros b. split; [auto | intros H gs' [= <-]; exact H]. }
  rewrite Hone in Hfight, Hmove.
  split; [|symmetry; exact Hmove].
  rewrite Hfight. destruct (in_combat gs); split; congruence.
Qed.

Lemma combat_panel_matches_gates_witness :
  (renderCombatInterface (playing (session true 50)) = true <->
   sent (run (performCombatAction (gameState (playing (session true 50)))
                "flee") (answers None None None) (playing (session true 50)))
   <> []) /\
  (renderCombatInterface (playing (session true 50)) = true <->
   sent (run (movePlayer (gameState (playing (session true 50))) "down")
           (answers None None None) (playing (session true 50))) = []).
Proof.
  apply (combat_panel_matches_gates (answers None None None)
           (playing (session true 50)) (session true 50) "down" "flee").
  reflexivity.
Defined.

(** X22.  The log panel shows the newest lines.  It is absent for an empty log;
    otherwise it shows the last five lines of the log, all of them when
    there are fewer, and its last line is the last line of the log. *)
Theorem log_panel_shows_newest (c : Client) :
  (combatLog c = [] -> logPanel c = None) /\
  (combatLog c <> [] ->
   exists shown older,
     logPanel c = Some shown /\
     combatLog c = (older ++ shown)%list /\
     length shown = Nat.min 5 (length (combatLog c)) /\
     last shown = last (combatLog c)).
Proof.
  unfold logPanel. split.
  - intros ->. reflexivity.
  - intros Hlines. destruct (combatLog c) as [|line lines] eqn:Hlog;
      [contradiction|].
    rewrite <- Hlog. clear Hlog Hlines line lines.
    set (log := combatLog c).
    exists (slice_last 5 log), (take (length log - 5) log).
    unfold slice_last.
    split; [reflexivity|]. split; [now rewrite take_drop|].
    split; [rewrite length_drop; lia|].
    destruct (decide (length log = 0)%nat) as [Hz|Hnz].
    + destruct log; [reflexivity | discriminate].
    + rewrite !last_lookup, lookup_drop, length_drop. f_equal. lia.
Qed.

(** X23.  Upper and lower case.  Both key handlers read the key through
    [toLowerCase], so a key and its lower-case form do the same. *)
Theorem keys_ignore_case (key : string) :
  (forall gameState dungeon,
     Local.handleKeyPress gameState dungeon (toLowerCase key)
     = Local.handleKeyPress gameState dungeon key) /\
  (forall c, handleKeyPress c (toLowerCase key) = handleKeyPress c key).
Proof.
  split.
  - intros gameState dungeon. unfold Local.handleKeyPress, Local.candidate.
    now rewrite toLowerCase_idempotent.
  - intros c. unfold handleKeyPress. now rewrite toLowerCase_idempotent.
Qed.

Lemma handler_update_commutes_view (view : string)
    (u : Client -> option Client) :
  handler_update u ->
  forall c, u (setCurrentView view c) = setCurrentView view <$> u c.
Proof.
  intros Hu c. destruct Hu; try reflexivity.
  unfold setCombatLogBy. cbn.
  now destruct (combat_started result (combatLog c)).
Qed.

(** X24.  The key handler does not look at the view.  With the view set to the
    menu, the hero selection or anything else, a key press sends the same
    requests and makes the same updates: leaving the game screen stops
    nothing. *)
Theorem keys_act_in_every_view (server : Server) (c : Client)
    (view key : string) :
  run (handleKeyPress (setCurrentView view c) key) server
    (setCurrentView view c)
  = let o := run (handleKeyPress c key) server c in
    mkOutcome (setCurrentView view (client o)) (sent o) (console o)
      (escaped o).
Proof.
  replace (handleKeyPress (setCurrentView view c) key)
    with (handleKeyPress c key) by (now destruct c).
  apply run_from_commutes.
  apply (updates_satisfy_weaken handler_update);
    [|apply handleKeyPress_updates].
  intros u Hu c'. now apply handler_update_commutes_view.
Qed.

(** ** Starting a session *)

(** X25.  What [generateDungeon] leaves.  Whatever happens, it ends with
    [loading] off, throws nothing and keeps the selections.  If generating
    fails nothing else changed; if it is answered with an empty body the
    dungeon is set to [null] and reading its id fails like a request; if
    starting the game fails the new dungeon is installed all the same,
    beside the game state, view and log of before; if both are answered
    the dungeon and the game state are the answers, the view is the game
    and the log is empty. *)
Theorem generateDungeon_outcome (server : Startup.Server) (a : Startup.App) :
  let o := Startup.run (Startup.generateDungeon a) server a in
  let generate := Startup.PostGenerateDungeon (Startup.selectedDifficulty a) in
  Startup.loading (Startup.app o) = false /\
  Startup.escaped o = false /\
  Startup.selectedDifficulty (Startup.app o) = Startup.selectedDifficulty a /\
  Startup.selectedHero (Startup.app o) = Startup.selectedHero a /\
  match server [] generate with
  | None =>
      Startup.client (Startup.app o) = Startup.client a /\
      Startup.sent o = [generate] /\
      Startup.console o = ["Error generating dungeon:"]
  | Some None =>
      Startup.client (Startup.app o) = setDungeon None (Startup.client a) /\
      Startup.sent o = [generate] /\
      Startup.console o = ["Error generating dungeon:"]
  | Some (Some d) =>
      let start :=
        Startup.PostStartGame (dungeon_id d)
          (Startup.class (Startup.selectedHero a))
          (Startup.gender (Startup.selectedHero a)) in
      Startup.sent o = [generate; start] /\
      match server [generate] start with
      | None =>
          Startup.client (Startup.app o)
          = setDungeon (Some d) (Startup.client a) /\
          Startup.console o = ["Error generating dungeon:"]
      | Some g =>
          Startup.client (Startup.app o)
          = mkClient g (Some d) (heroes (Startup.client a)) []
              (showInventory (Startup.client a)) "game" /\
          Startup.console o = []
      end
  end.
Proof.
  unfold Startup.run, Startup.generateDungeon. cbn.
  destruct (server [] _) as [[d|]|]; cbn; [|repeat split..].
  destruct (server [_] _) as [g|]; cbn; repeat split.
Qed.

(** What the startup lemmas below need of a run of [generateDungeon]. *)
Lemma generateDungeon_settles (server : Startup.Server) (a : Startup.App) :
  let o := Startup.run (Startup.generateDungeon a) server a in
  Startup.loading (Startup.app o) = false /\
  Startup.selectedDifficulty (Startup.app o) = Startup.selectedDifficulty a /\
  (exists rest,
     Startup.sent o
     = Startup.PostGenerateDungeon (Startup.selectedDifficulty a) :: rest) /\
  (Startup.client (Startup.app o) = Startup.client a \/
   (exists d,
      Startup.client (Startup.app o) = setDungeon d (Startup.client a) /\
      (d = None ->
       server [] (Startup.PostGenerateDungeon (Startup.selectedDifficulty a))
       = Some None)) \/
   (exists d g dungeon_id hero_class gender,
      Startup.client (Startup.app o)
      = mkClient g (Some d) (heroes (Startup.client a)) []
          (showInventory (Startup.client a)) "game" /\
      server [Startup.PostGenerateDungeon (Startup.selectedDifficulty a)]
        (Startup.PostStartGame dungeon_id hero_class gender) = Some g)).
Proof.
  unfold Startup.run, Startup.generateDungeon. cbn.
  destruct (server [] _) as [[d|]|] eqn:Hgenerate; cbn.
  - destruct (server [_] _) as [g|] eqn:Hstart; cbn.
    + split_and!; eauto. right. right. eauto 10.
    + split_and!; eauto. right. left. exists (Some d). split; [reflexivity|].
      discriminate.
  - split_and!; eauto.
  - split_and!; eauto.
Qed.

Lemma loadHeroes_outcome (server : Startup.Server) (a : Startup.App) :
  let o := Startup.run Startup.loadHeroes server a in
  Startup.app o
  = match server [] Startup.GetHeroes with
    | Some hs => Startup.setClient (setHeroes hs) a
    | None => a
    end.
Proof.
  unfold Startup.run, Startup.loadHeroes. cbn.
  destruct (server [] Startup.GetHeroes); reflexivity.
Qed.

(** The frame of any handler built from the five updates. *)
Lemma handler_updates_frame {A : Type} (m : Async A) (server : Server)
    (c : Client) :
  updates_satisfy handler_update m ->
  let c' := client (run m server c) in
  dungeon c' = dungeon c /\ heroes c' = heroes c /\
  currentView c' = currentView c.
Proof.
  intros Hm.
  apply (run_from_respects
           (fun c1 c2 =>
              dungeon c2 = dungeon c1 /\ heroes c2 = heroes c1 /\
              currentView c2 = currentView c1)).
  - intros c1. repeat split.
  - intros c1 c2 c3 (Hd1 & Hh1 & Hv1) (Hd2 & Hh2 & Hv2).
    repeat split; congruence.
  - apply (updates_satisfy_weaken handler_update); [|exact Hm].
    intros u Hu c1 c2 Huc.
    destruct (handler_update_cases u c1 c2 Hu Huc) as (? & ? & ? & _). auto.
Qed.

(** *** What holds whatever the servers answer *)

Lemma in_game_steady (server : Server) (m : Async unit) (a : Startup.App) :
  updates_satisfy handler_update m ->
  Machine.steady a -> Machine.steady (Machine.in_game server m a).
Proof.
  intros Hm (Hload & Hview & Hdiff).
  destruct (handler_updates_frame m server (Startup.client a) Hm)
    as (_ & _ & Hv).
  unfold Machine.steady, Machine.in_game. cbn in *.
  rewrite Hv. auto.
Qed.

Lemma handle_steady (w : Machine.World) (e : Machine.Event)
    (a : Startup.App) :
  Machine.steady a -> Machine.enabled a e = true ->
  Machine.steady (Machine.handle w e a).
Proof.
  intros Hsteady Henabled.
  pose proof Hsteady as (Hload & Hview & Hdiff).
  destruct e; cbn [Machine.handle].
  - (* Mount *)
    rewrite loadHeroes_outcome.
    destruct (Machine.startup_server w [] Startup.GetHeroes);
      [|exact Hsteady].
    unfold Machine.steady. cbn. auto.
  - (* SelectDifficulty *)
    unfold Machine.steady. cbn. repeat split; auto.
    cbn in Henabled. destruct (screen (Startup.client a)); try discriminate.
    rewrite !orb_true_iff in Henabled.
    destruct Henabled as [[H | H] | H]; apply String.eqb_eq in H; auto.
  - (* ClickChooseHero *)
    unfold Machine.steady. cbn. auto.
  - (* ClickHero *)
    unfold Machine.steady. cbn. auto.
  - (* ClickBack *)
    unfold Machine.steady. cbn. auto.
  - (* ClickStart *)
    pose proof (generateDungeon_settles (Machine.startup_server w) a) as Hgen.
    cbn zeta in Hgen.
    destruct Hgen as (Hload' & Hdiff' & _ & Hcases).
    unfold Machine.steady. rewrite Hload', Hdiff'.
    destruct Hcases as [-> | [(d & -> & _) | (d & g & ? & ? & ? & -> & _)]];
      cbn; auto.
  - (* ClickMenu *)
    unfold Machine.steady. cbn. auto.
  - (* ClickInventory *)
    unfold Machine.steady. cbn. auto.
  - (* ClickCloseInventory *)
    unfold Machine.steady. cbn. auto.
  - (* ClickAttack *)
    apply in_game_steady; [apply performCombatAction_updates | exact Hsteady].
  - (* ClickFlee *)
    apply in_game_steady; [apply performCombatAction_updates | exact Hsteady].
  - (* KeyDown *)
    apply in_game_steady; [apply handleKeyPress_updates | exact Hsteady].
Qed.

Lemma steps_steady (history : list (Machine.World * Machine.Event)) :
  forall a, Machine.steady a -> Machine.steady (Machine.steps history a).
Proof.
  induction history as [|[w e] rest IH]; intros a Hsteady;
    cbn [Machine.steps]; [exact Hsteady|].
  destruct (Machine.enabled a e && Machine.crashes w e a); [exact Hsteady|].
  apply IH. unfold Machine.step.
  destruct (Machine.enabled a e) eqn:Henabled; [|exact Hsteady].
  now apply handle_steady.
Qed.

Lemma initial_steady : Machine.steady Startup.initial.
Proof. unfold Machine.steady. cbn. auto. Qed.

(** *** What holds when the answers have their bodies *)

Lemma in_game_settled (server : Server) (m : Async unit) (a : Startup.App) :
  updates_satisfy handler_update m ->
  (gameState (Startup.client a) = None -> m = Ret tt) ->
  (is_Some (gameState (Startup.client a)) ->
   is_Some (gameState (client (run m server (Startup.client a))))) ->
  Machine.settled a -> Machine.settled (Machine.in_game server m a).
Proof.
  intros Hm Hnull Hkeeps Hsettled.
  destruct (gameState (Startup.client a)) as [gs|] eqn:Hgs.
  2:{ rewrite (Hnull eq_refl). unfold Machine.in_game. cbn.
      now destruct a. }
  destruct Hsettled as (Hload & Hview & Hdiff & Hdungeon & Hgame).
  destruct (handler_updates_frame m server (Startup.client a) Hm)
    as (Hd & _ & Hv).
  unfold Machine.settled, Machine.in_game. cbn in *.
  rewrite Hd, Hv, Hgs in *. split_and!; eauto.
Qed.

Lemma handle_settled (w : Machine.World) (e : Machine.Event)
    (a : Startup.App) :
  Machine.answers_in_full w ->
  Machine.settled a -> Machine.enabled a e = true ->
  Machine.settled (Machine.handle w e a).
Proof.
  intros (Hfetch & Hgenerate & Hstart) Hsettled Henabled.
  pose proof Hsettled as (Hload & Hview & Hdiff & Hdungeon & Hgame).
  destruct e; cbn [Machine.handle].
  - (* Mount *)
    rewrite loadHeroes_outcome.
    destruct (Machine.startup_server w [] Startup.GetHeroes);
      [|exact Hsettled].
    unfold Machine.settled. cbn. auto.
  - (* SelectDifficulty *)
    unfold Machine.settled. cbn. repeat split; auto.
    cbn in Henabled. destruct (screen (Startup.client a)); try discriminate.
    rewrite !orb_true_iff in Henabled.
    destruct Henabled as [[H | H] | H]; apply String.eqb_eq in H; auto.
  - (* ClickChooseHero *)
    unfold Machine.settled. cbn. repeat split; auto. discriminate.
  - (* ClickHero *)
    unfold Machine.settled. cbn. auto.
  - (* ClickBack *)
    unfold Machine.settled. cbn. repeat split; auto. discriminate.
  - (* ClickStart *)
    pose proof (generateDungeon_settles (Machine.startup_server w) a) as Hgen.
    cbn zeta in Hgen.
    destruct Hgen as (Hload' & Hdiff' & _ & Hcases).
    unfold Machine.settled. rewrite Hload', Hdiff'.
    destruct Hcases
      as [-> | [(d & -> & Hd) | (d & g & ? & ? & ? & -> & Hg)]]; cbn.
    + repeat split; auto.
    + destruct d as [d|]; [|now apply Hgenerate in Hd].
      repeat split; eauto.
    + destruct g as [g|]; [|now apply Hstart in Hg].
      repeat split; eauto.
  - (* ClickMenu *)
    unfold Machine.settled. cbn. repeat split; auto. discriminate.
  - (* ClickInventory *)
    unfold Machine.settled. cbn. auto.
  - (* ClickCloseInventory *)
    unfold Machine.settled. cbn. auto.
  - (* ClickAttack *)
    apply in_game_settled;
      [apply performCombatAction_updates | | | exact Hsettled].
    + now intros ->.
    + now apply performCombatAction_keeps_game.
  - (* ClickFlee *)
    apply in_game_settled;
      [apply performCombatAction_updates | | | exact Hsettled].
    + now intros ->.
    + now apply performCombatAction_keeps_game.
  - (* KeyDown *)
    apply in_game_settled; [apply handleKeyPress_updates | | | exact Hsettled].
    + intros Hnull. unfold handleKeyPress. now rewrite Hnull.
    + now apply handleKeyPress_keeps_game.
Qed.

Lemma steps_settled (history : list (Machine.World * Machine.Event)) :
  Forall (fun we => Machine.answers_in_full (fst we)) history ->
  forall a, Machine.settled a -> Machine.settled (Machine.steps history a).
Proof.
  induction history as [|[w e] rest IH]; intros Hfull a Hsettled;
    cbn [Machine.steps]; [exact Hsettled|].
  apply Forall_cons in Hfull as [Hw Hrest].
  destruct (Machine.enabled a e && Machine.crashes w e a); [exact Hsettled|].
  apply IH; [exact Hrest|]. unfold Machine.step.
  destruct (Machine.enabled a e) eqn:Henabled; [|exact Hsettled].
  now apply handle_settled.
Qed.

Lemma initial_settled : Machine.settled Startup.initial.
Proof.
  unfold Machine.settled. cbn. repeat split; auto.
  - intros [? H]. discriminate H.
  - discriminate.
Qed.

(** X26.  The game screen has a game.  However the component is driven from
    its mount and whatever the servers answer, between events [loading] is
    off, the view is one of the three and the difficulty is one of the
    three.  When no answer has [null] for a body, a game state is moreover
    never without its dungeon, and on the game screen both are there, so
    that [renderDungeon] does not return [null]. *)
Theorem component_stays_settled
    (history : list (Machine.World * Machine.Event)) :
  let a := Machine.steps history Startup.initial in
  Machine.steady a /\
  (Forall (fun we => Machine.answers_in_full (fst we)) history ->
   Machine.settled a /\
   (screen (Startup.client a) = GameScreen ->
    renderDungeon (Startup.client a) <> RenderNull)).
Proof.
  cbn zeta. split; [apply steps_steady, initial_steady|].
  intros Hfull.
  pose proof (steps_settled history Hfull _ initial_settled) as Hsettled.
  split; [exact Hsettled|].
  destruct Hsettled as (_ & Hview & _ & Hdungeon & Hgame).
  cbn zeta in *. unfold screen, renderDungeon. intros Hscreen.
  destruct Hview as [Hv | [Hv | Hv]]; rewrite Hv in Hscreen;
    try discriminate Hscreen.
  destruct (Hgame Hv) as [g Hg].
  destruct (Hdungeon (ex_intro _ g Hg)) as [d Hd].
  rewrite Hg, Hd. now destruct (mapM _ _).
Qed.

(** An empty body for the new game, and the game screen has no game: the
    grid is not drawn. *)
Example game_screen_without_game :
  let nobody :=
    Machine.mkWorld goblin_ahead
      (fun _ r =>
         match r as r' return option (Startup.Reply r') with
         | Startup.GetHeroes => None
         | Startup.PostGenerateDungeon _ => Some (Some (open_dungeon 5 5))
         | Startup.PostStartGame _ _ _ => Some None
         end) in
  let a := Machine.steps
             [(nobody, Machine.ClickChooseHero); (nobody, Machine.ClickStart)]
             Startup.initial in
  screen (Startup.client a) = GameScreen /\
  gameState (Startup.client a) = None /\
  renderDungeon (Startup.client a) = RenderNull.
Proof. vm_compute. repeat split. Qed.

(** A key press whose handler ends in an uncaught exception ends the run:
    the click on the menu button that follows is not handled. *)
Example run_ends_at_uncaught_exception :
  let nameless :=
    Machine.mkWorld
      (answers (Some (MoveResult.mk true None true None))
         (Some (session true 100)) None)
      (Startup.answers (Some ∅) (Some (open_dungeon 5 5))
         (Some (session false 100))) in
  let history :=
    [(nameless, Machine.ClickChooseHero); (nameless, Machine.ClickStart)] in
  Machine.steps
    (history ++ [(nameless, Machine.KeyDown "w"); (nameless, Machine.ClickMenu)])
    Startup.initial
  = Machine.steps history Startup.initial /\
  currentView (Startup.client (Machine.steps history Startup.initial))
  = "game".
Proof. vm_compute. split; reflexivity. Qed.

(** X27.  The difficulty on the wire.  Whenever the start button is pressed, the
    first request is the dungeon generation, and the difficulty it carries
    is easy, medium or hard. *)
Theorem generate_request_difficulty
    (history : list (Machine.World * Machine.Event))
    (server : Startup.Server) :
  let a := Machine.steps history Startup.initial in
  exists difficulty rest,
    Startup.sent (Startup.run (Startup.generateDungeon a) server a)
    = Startup.PostGenerateDungeon difficulty :: rest /\
    (difficulty = "easy" \/ difficulty = "medium" \/ difficulty = "hard").
Proof.
  cbn zeta.
  pose proof (steps_steady history _ initial_steady) as (_ & _ & Hdiff).
  set (a := Machine.steps history Startup.initial) in *.
  pose proof (generateDungeon_settles server a) as Hgen. cbn zeta in Hgen.
  destruct Hgen as (_ & _ & (rest & Hsent) & _).
  exists (Startup.selectedDifficulty a), rest.
  split; [exact Hsent | exact Hdiff].
Qed.

(** ** Instances *)

Lemma local_glyph_precedence_witness :
  exists t, In t (treasures haunted_corridor) /\
    (t_x t = 0 /\ t_y t = 0) /\
    Local.renderCell haunted_corridor (session_at 2 0 (lit_all 3 1)) 0 0 0
    = Some (Local.treasure_emoji t).
Proof.
  destruct (local_glyph_precedence haunted_corridor
              (session_at 2 0 (lit_all 3 1)) 0 0 [true; true; true]
              eq_refl eq_refl) as (Htreasure & _).
  { intros [H _]. discriminate H. }
  apply Htreasure. exists coin. repeat split. left. reflexivity.
Defined.

Lemma dead_enemies_not_drawn_witness :
  renderCell ∅ haunted_corridor (session_at 2 0 (lit_all 3 1)) 0 1 Floor
  <> Some (enemy_emoji bones).
Proof.
  apply (dead_enemies_not_drawn ∅ haunted_corridor
           (session_at 2 0 (lit_all 3 1)) 0 1 Floor bones).
  - intros [H _]. discriminate H.
  - intros e' [<- | [<- | []]] Hx Hy; [discriminate Hx | reflexivity].
Defined.

Lemma remote_glyph_precedence_witness :
  exists k, In k (keys stocked_dungeon) /\ key_here untouched 1 1 k /\
    renderCell ∅ stocked_dungeon untouched 1 1 Chest = Some (key_emoji k).
Proof.
  destruct (remote_glyph_precedence ∅ stocked_dungeon untouched 1 1 Chest
              [true; true; true] eq_refl eq_refl) as (Hkey & _).
  { intros [H _]. discriminate H. }
  { discriminate. }
  apply Hkey. exists silver_key. split; [left; reflexivity|].
  repeat split.
Defined.

Lemma local_renderDungeon_shape_witness :
  (exists glyphs : list (list string),
     Local.renderDungeon (Some (session_at 2 0 (lit_all 3 1)))
       (Some haunted_corridor) = Local.RenderGrid glyphs /\
     Forall2 (fun row shown => length shown = length row)
       (grid haunted_corridor) glyphs) /\
  Local.renderDungeon (Some (session_at 2 0 [])) (Some haunted_corridor)
  = Local.RenderThrows.
Proof.
  destruct (local_renderDungeon_shape haunted_corridor
              (session_at 2 0 (lit_all 3 1))) as (Hshape & _).
  destruct (local_renderDungeon_shape haunted_corridor (session_at 2 0 []))
    as (_ & Hthrows).
  split.
  - apply Hshape. cbn. lia.
  - apply (Hthrows 0%nat [Floor; Floor; Floor]);
      [reflexivity | discriminate | cbn; lia].
Defined.

Lemma remote_renderDungeon_shape_witness :
  exists glyphs : list (list string),
    renderDungeon (mkClient (Some looted) (Some stocked_dungeon) ∅ [] false
                     "game") = RenderGrid glyphs /\
    Forall2 (fun row shown => length shown = length row)
      (grid stocked_dungeon) glyphs.
Proof.
  destruct (remote_renderDungeon_shape
              (mkClient (Some looted) (Some stocked_dungeon) ∅ [] false "game")
              stocked_dungeon looted eq_refl eq_refl) as (Hshape & _).
  apply Hshape. cbn. lia.
Defined.

(** The sample servers name their enemies and send no empty body. *)
Lemma goblin_ahead_names_enemies : names_enemies goblin_ahead.
Proof.
  intros requests game_id direction result H _ _. cbn in H.
  injection H as <-. cbn. eauto.
Qed.

Lemma goblin_ahead_in_full (requests : list Request) (game_id : string) :
  goblin_ahead requests (GetGame game_id) <> Some None.
Proof. intros H. cbn in H. discriminate H. Qed.

Lemma friendly_in_full : Machine.answers_in_full friendly.
Proof.
  unfold Machine.answers_in_full. split_and!; intros; intros H; cbn in H;
    discriminate H.
Qed.

Lemma exceptions_of_game_handlers_witness :
  let c := playing (session false 100) in
  names_enemies goblin_ahead /\
  escaped (run (handleKeyPress c "w") goblin_ahead c) = false /\
  escaped (run (movePlayer (gameState c) "up") goblin_ahead c) = false.
Proof.
  intros c. split; [exact goblin_ahead_names_enemies|].
  destruct (exceptions_of_game_handlers goblin_ahead c "w" "up" "attack")
    as (_ & _ & Hsafe).
  exact (Hsafe goblin_ahead_names_enemies).
Defined.

Lemma key_press_extends_log_witness :
  exists more : list (option string),
    combatLog (client (run (handleKeyPress chatty "w") goblin_ahead chatty))
    = (combatLog chatty ++ more)%list.
Proof.
  apply (key_press_extends_log goblin_ahead chatty "w"). reflexivity.
Defined.

Lemma key_press_frame_witness :
  let c := playing (session false 100) in
  let o := run (handleKeyPress c "w") goblin_ahead c in
  escaped o = false /\
  dungeon (client o) = dungeon c /\ heroes (client o) = heroes c /\
  currentView (client o) = currentView c /\
  is_Some (gameState (client o)).
Proof.
  intros c o. split; [reflexivity|].
  destruct (key_press_frame goblin_ahead c "w" eq_refl)
    as (Hd & Hh & Hv & Hg).
  split_and!; [exact Hd | exact Hh | exact Hv |].
  apply Hg; [exact goblin_ahead_in_full | cbn; eauto].
Defined.

Lemma key_press_requests_witness :
  let requests := sent (run (handleKeyPress (playing (session false 100)) "w")
                          goblin_ahead (playing (session false 100))) in
  Forall (fun r => request_game r = id (session false 100)) requests /\
  (length requests <= 2)%nat /\
  (forall r, In r (tail requests) -> r = GetGame (id (session false 100))).
Proof.
  apply (key_press_requests goblin_ahead (playing (session false 100))
           (session false 100) eq_refl "w").
Defined.

Lemma log_panel_shows_newest_witness :
  exists shown older,
    logPanel chatty = Some shown /\
    combatLog chatty = (older ++ shown)%list /\
    length shown = Nat.min 5 (length (combatLog chatty)) /\
    last shown = last (combatLog chatty).
Proof.
  destruct (log_panel_shows_newest chatty) as (_ & Hshown).
  apply Hshown. discriminate.
Defined.

Lemma component_stays_settled_witness :
  let a := Machine.steps
             [(friendly, Machine.Mount); (friendly, Machine.ClickChooseHero);
              (friendly, Machine.ClickStart); (friendly, Machine.KeyDown "w")]
             Startup.initial in
  screen (Startup.client a) = GameScreen /\
  renderDungeon (Startup.client a) <> RenderNull.
Proof.
  destruct (component_stays_settled
              [(friendly, Machine.Mount); (friendly, Machine.ClickChooseHero);
               (friendly, Machine.ClickStart);
               (friendly, Machine.KeyDown "w")]) as (_ & Hfull).
  destruct Hfull as (_ & Hdraw).
  { repeat (apply List.Forall_cons; [exact friendly_in_full|]).
    apply List.Forall_nil. }
  split; [reflexivity|]. apply Hdraw. reflexivity.
Defined.
